(** * open-r1 GRPO script: reward functions and training pipeline

    A shallow embedding of [src/open_r1/grpo.py]: the two reward functions
    [accuracy_reward] and [format_reward], the registry that names them,
    [SYSTEM_PROMPT], [make_conversation] and [main].

    Python values are modelled by the inductive [value]; exceptions by
    [result]; printing and calls into the external libraries by a state
    monad over a [World] that records them.  Python [str] values are
    modelled as [string] (their UTF-8 bytes): the pattern of
    [format_reward] only mentions ASCII characters and the byte 10 never
    occurs inside a multi-byte sequence, so matching on bytes and matching
    on code points agree. *)

From Stdlib Require Import PrimFloat Ascii.
From stdpp Require Import gmap strings list.

Set Default Proof Using "Type".
#[local] Set Warnings "-register-all".
Open Scope string_scope.
Open Scope list_scope.

(** ** Python values, exceptions and effects *)

Inductive value :=
| VNone
| VInt (n : Z)
| VStr (s : string)
| VList (l : list value)
| VDict (d : gmap string value).

Inductive exn :=
| IndexError
| KeyError (key : string)
| TypeError
| ReError                 (* [re.error]: the pattern does not compile *)
| ArrowInvalid            (* [pyarrow.lib.ArrowInvalid]: values of one column disagree *)
| LibraryError.           (* raised inside an external library call *)

Inductive result (A : Type) :=
| Ok (a : A)
| Raise (e : exn).
Arguments Ok {A} a.
Arguments Raise {A} e.

(** The reward functions are first-class values in the source; here they
    are named by a tag and run by [call_reward_func] below. *)
Inductive reward_func := accuracy_reward_func | format_reward_func.

(** A row of a dataset, and a dataset with its named splits. *)
Abbreviation row := (gmap string value).
Abbreviation DatasetDict := (list (string * list row)).

(** What the outside can observe of a run: the calls of [print] (each with
    its arguments) and the calls into the dataset and trainer libraries. *)
Inductive event :=
| load_dataset_call (path : value)
| dataset_map_call (dataset : DatasetDict)
| GRPOTrainer_call (model : value) (reward_funcs : list reward_func)
    (train_dataset eval_dataset : list row)
| train_call
| train_return
| save_model_call (output_dir : value).

Record World := mkWorld {
  stdout : list (list value);
  calls : list event
}.

Definition M (A : Type) : Type := World -> result A * World.

Definition ret {A} (a : A) : M A := fun w => (Ok a, w).
Definition raise {A} (e : exn) : M A := fun w => (Raise e, w).
Definition bind {A B} (c : M A) (k : A -> M B) : M B :=
  fun w => match c w with
           | (Ok a, w') => k a w'
           | (Raise e, w') => (Raise e, w')
           end.
Definition lift {A} (r : result A) : M A := fun w => (r, w).

Notation "x <- c ;; k" := (bind c (fun x => k))
  (at level 100, c at next level, right associativity).
Notation "c ;;; k" := (bind c (fun _ => k))
  (at level 100, right associativity).

(** [print]: one more line on the standard output, kept as the arguments
    of the call. *)
Definition print (args : list value) : M unit :=
  fun w => (Ok tt, mkWorld (stdout w ++ [args]) (calls w)).

(** A call into an external library, recorded when it is made. *)
Definition emit (e : event) : M unit :=
  fun w => (Ok tt, mkWorld (stdout w) (calls w ++ [e])).

(** A list comprehension [[f x for x in l]]: left to right, the first
    exception ends it. *)
Fixpoint mapM {A B} (f : A -> M B) (l : list A) : M (list B) :=
  match l with
  | [] => ret []
  | x :: l' => y <- f x ;; ys <- mapM f l' ;; ret (y :: ys)
  end.

(** The same comprehension for an [f] that has no effect. *)
Fixpoint traverse {A B} (f : A -> result B) (l : list A) : result (list B) :=
  match l with
  | [] => Ok []
  | x :: l' =>
      match f x with
      | Raise e => Raise e
      | Ok y =>
          match traverse f l' with
          | Raise e => Raise e
          | Ok ys => Ok (y :: ys)
          end
      end
  end.

(** [v[0]] *)
Definition getitem_0 (v : value) : result value :=
  match v with
  | VList (x :: _) => Ok x
  | VList [] => Raise IndexError
  | VStr (String c _) => Ok (VStr (String c ""))
  | VStr "" => Raise IndexError
  | VDict _ => Raise (KeyError "0")
  | _ => Raise TypeError
  end.

(** [v[key]] for a string [key] *)
Definition getitem (v : value) (key : string) : result value :=
  match v with
  | VDict d => match d !! key with
               | Some x => Ok x
               | None => Raise (KeyError key)
               end
  | _ => Raise TypeError
  end.

(** [completion[0]["content"]] *)
Definition first_content (completion : value) : result value :=
  match getitem_0 completion with
  | Ok m => getitem m "content"
  | Raise e => Raise e
  end.

(** ** Regular expressions: the fragment of [re] the script uses *)

Module re.

Definition newline : ascii := "010"%char.

Inductive charset :=
| LITERAL (c : ascii)
| ANY.                     (* [.] without DOTALL: all but the newline *)

Inductive item :=
| ONE (c : charset)
| MIN_REPEAT (c : charset) (* [c*?] *)
| AT_BEGINNING             (* [^] without MULTILINE *)
| AT_END.                  (* [$] without MULTILINE *)

Definition special (c : ascii) : bool :=
  bool_decide (c ∈ String.list_ascii_of_string ".^$*+?{}[]\|()").

(** Parsing of a pattern; [None] outside the fragment. *)
Fixpoint parse (p : string) : option (list item) :=
  match p with
  | "" => Some []
  | String c rest =>
      if Ascii.eqb c "^" then cons AT_BEGINNING <$> parse rest
      else if Ascii.eqb c "$" then cons AT_END <$> parse rest
      else
        let atom := if Ascii.eqb c "." then Some ANY
                    else if special c then None else Some (LITERAL c) in
        match atom with
        | None => None
        | Some a =>
            match rest with
            | String "*" (String "?" rest') => cons (MIN_REPEAT a) <$> parse rest'
            | String "*" _ | String "+" _ | String "?" _ | String "{" _ => None
            | _ => cons (ONE a) <$> parse rest
            end
        end
  end.

Definition accepts (cs : charset) (c : ascii) : bool :=
  match cs with
  | LITERAL l => Ascii.eqb l c
  | ANY => negb (Ascii.eqb c newline)
  end.

(** [$]: at the end of the string, or just before a newline that ends it. *)
Definition at_end (s : string) : bool :=
  match s with
  | "" => true
  | String c "" => Ascii.eqb c newline
  | _ => false
  end.

(** The backtracking matcher.  [bos] tells whether the position is the
    beginning of the string, [s] is what is left of the subject; the result
    is the number of characters the match takes.  A lazy repeat first tries
    to go on with the rest of the pattern and takes one more character only
    when that fails. *)
Fixpoint match_here (p : list item) : bool -> string -> option nat :=
  match p with
  | [] => fun _ _ => Some 0
  | AT_BEGINNING :: p' => fun bos s => if bos then match_here p' bos s else None
  | AT_END :: p' => fun bos s => if at_end s then match_here p' bos s else None
  | ONE cs :: p' => fun _ s =>
      match s with
      | String c s' => if accepts cs c then S <$> match_here p' false s' else None
      | "" => None
      end
  | MIN_REPEAT cs :: p' =>
      fix lazy (bos : bool) (s : string) {struct s} : option nat :=
        match match_here p' bos s with
        | Some n => Some n
        | None =>
            match s with
            | String c s' => if accepts cs c then S <$> lazy false s' else None
            | "" => None
            end
        end
  end.

(** [re.match(pattern, string)]: the match is tried at the beginning of the
    string only; the result is the end of the match, or [None]. *)
Definition match_ (pattern : string) (subject : value) : result (option nat) :=
  match parse pattern with
  | None => Raise ReError
  | Some code =>
      match subject with
      | VStr s => Ok (match_here code true s)
      | _ => Raise TypeError
      end
  end.

(** What it means for a pattern to match at a position, told as a relation:
    the specification the matcher is checked against. *)
Inductive matches : list item -> bool -> string -> Prop :=
| matches_nil bos s :
    matches [] bos s
| matches_beginning p s :
    matches p true s -> matches (AT_BEGINNING :: p) true s
| matches_end p bos s :
    at_end s = true -> matches p bos s -> matches (AT_END :: p) bos s
| matches_one cs p bos c s :
    accepts cs c = true -> matches p false s -> matches (ONE cs :: p) bos (String c s)
| matches_skip cs p bos s :
    matches p bos s -> matches (MIN_REPEAT cs :: p) bos s
| matches_more cs p bos c s :
    accepts cs c = true -> matches (MIN_REPEAT cs :: p) false s ->
    matches (MIN_REPEAT cs :: p) bos (String c s).

(** The items of a literal text. *)
Fixpoint literal (l : string) : list item :=
  match l with
  | "" => []
  | String c l' => ONE (LITERAL c) :: literal l'
  end.

Fixpoint has_newline (s : string) : bool :=
  match s with
  | "" => false
  | String c s' => Ascii.eqb c newline || has_newline s'
  end.

End re.

(** ** The reward functions *)

Definition format_pattern : string := "^<think>.*?</think><answer>.*?</answer>$".

(** [1.0 if match else 0.0]: a match object is always true, [None] false. *)
Definition score (m : option nat) : float :=
  match m with
  | Some _ => 1%float
  | None => 0%float
  end.

Definition format_reward (completions : list value) (kwargs : gmap string value)
  : M (list float) :=
  let pattern := format_pattern in
  completion_contents <-
    mapM (fun completion => lift (first_content completion)) completions ;;
  matches <- mapM (fun content => lift (re.match_ pattern content)) completion_contents ;;
  ret (score <$> matches).

(** The configuration objects handed to the answer parser.  The default
    [LatexExtractionConfig()] takes all its fields from the library. *)
Record NormalizationConfig := mkNormalizationConfig {
  nits : bool;
  malformed_operators : bool;
  basic_latex : bool;
  equations : bool;
  boxed : bool;
  units : bool
}.

Inductive LatexExtractionConfig :=
| LatexExtractionConfig_default
| LatexExtractionConfig_with (normalization_config : NormalizationConfig)
    (boxed_match_priority : Z) (try_extract_without_anchor : bool).

(** [float(b)] for a boolean [b] *)
Definition float_of_bool (b : bool) : float :=
  if b then 1%float else 0%float.

Section accuracy.
(** [parse] and [verify] of [math_verify] are outside the repository:
    they are taken as total functions without effects. *)
Context {parsed : Type}.
Variable parse : value -> list LatexExtractionConfig -> string -> list parsed.
Variable verify : list parsed -> list parsed -> bool.

Definition answer_config : LatexExtractionConfig :=
  LatexExtractionConfig_with
    {| nits := false; malformed_operators := false; basic_latex := true;
       equations := true; boxed := true; units := true |}
    0%Z false.

(** The body of the loop, for one pair of [zip(contents, solution)]. *)
Definition accuracy_of (content sol : value) : M float :=
  let gold_parsed := parse sol [LatexExtractionConfig_default] "first_match" in
  if negb (Nat.eqb (length gold_parsed) 0) then
    let answer_parsed := parse content [answer_config] "first_match" in
    let reward := float_of_bool (verify answer_parsed gold_parsed) in
    ret reward
  else
    let reward := 1%float in
    print [VStr "Failed to parse gold solution: "; sol] ;;;
    ret reward.

(** The loop itself: [rewards] grows by [append]. *)
Fixpoint accuracy_loop (pairs : list (value * value)) (rewards : list float)
  : M (list float) :=
  match pairs with
  | [] => ret rewards
  | (content, sol) :: pairs' =>
      reward <- accuracy_of content sol ;;
      accuracy_loop pairs' (rewards ++ [reward])
  end.

Definition accuracy_reward (completions solution : list value)
    (kwargs : gmap string value) : M (list float) :=
  contents <- mapM (fun completion => lift (first_content completion)) completions ;;
  let rewards := [] in
  accuracy_loop (zip contents solution) rewards.

(** How the trainer runs a reward function: the columns of the dataset
    are passed by keyword, [solution] among them. *)
Definition call_reward_func (f : reward_func) (completions solution : list value)
    (kwargs : gmap string value) : M (list float) :=
  match f with
  | accuracy_reward_func => accuracy_reward completions solution kwargs
  | format_reward_func => format_reward completions (<["solution" := VList solution]> kwargs)
  end.
End accuracy.

Definition reward_funcs_registry : gmap string reward_func :=
  {[ "accuracy" := accuracy_reward_func; "format" := format_reward_func ]}.

Definition SYSTEM_PROMPT : string :=
  "A conversation between User and Assistant. The user asks a question, and the Assistant solves it. The assistant "
  +:+ "first thinks about the reasoning process in the mind and then provides the user with the answer. The reasoning "
  +:+ "process and answer are enclosed within <think> </think> and <answer> </answer> tags, respectively, i.e., "
  +:+ "<think> reasoning process here </think><answer> answer here </answer>".

(** ** The pipeline *)

Definition make_conversation (example : row) : result row :=
  match example !! "problem" with
  | Some problem =>
      Ok {[ "prompt" :=
              VList [ VDict {[ "role" := VStr "system"; "content" := VStr SYSTEM_PROMPT ]};
                      VDict {[ "role" := VStr "user"; "content" := problem ]} ] ]}
  | None => Raise (KeyError "problem")
  end.

(** ** Writing a column: the Arrow types of the values

    [Dataset.map] of the [datasets] library, which is outside the
    repository, writes what the function returns into Arrow columns, and
    raises when the values of one column have no common type.  This is the
    part of that inference the values of this development reach: [None]
    goes with every type, integers and texts with themselves, lists with
    lists whose items agree, dictionaries with dictionaries whose common
    fields agree. *)

Module arrow.

Inductive type :=
| null
| int64
| string_
| list_ (item : type)
| struct (fields : list (string * type)).

Fixpoint field (fields : list (string * type)) (name : string) : option type :=
  match fields with
  | [] => None
  | (k, t) :: fields' => if String.eqb k name then Some t else field fields' name
  end.

Fixpoint unify (a b : type) {struct a} : option type :=
  match a, b with
  | null, t => Some t
  | t, null => Some t
  | int64, int64 => Some int64
  | string_, string_ => Some string_
  | list_ x, list_ y => list_ <$> unify x y
  | struct f, struct g =>
      let fix both (f : list (string * type)) : option (list (string * type)) :=
        match f with
        | [] => Some []
        | (k, t) :: f' =>
            match (match field g k with Some u => unify t u | None => Some t end),
                  both f' with
            | Some t', Some r => Some ((k, t') :: r)
            | _, _ => None
            end
        end in
      match both f with
      | Some r =>
          Some (struct (r ++ List.filter
                              (fun '(k, _) => negb (bool_decide (is_Some (field f k)))) g))
      | None => None
      end
  | _, _ => None
  end.

Fixpoint infer (v : value) : option type :=
  match v with
  | VNone => Some null
  | VInt n => if bool_decide (-2^63 <= n < 2^63)%Z then Some int64 else None
  | VStr _ => Some string_
  | VList l =>
      list_ <$>
      (fix items (l : list value) : option type :=
         match l with
         | [] => Some null
         | x :: l' =>
             match infer x, items l' with
             | Some t, Some u => unify t u
             | _, _ => None
             end
         end) l
  | VDict d =>
      struct <$>
      (fix fields (l : list (string * option type)) : option (list (string * type)) :=
         match l with
         | [] => Some []
         | (k, Some t) :: l' => cons (k, t) <$> fields l'
         | (_, None) :: _ => None
         end) (map_to_list (infer <$> d))
  end.

(** The type of a column, from the values of its rows. *)
Fixpoint column (values : list value) : option type :=
  match values with
  | [] => Some null
  | v :: values' =>
      match infer v, column values' with
      | Some t, Some u => unify t u
      | _, _ => None
      end
  end.

End arrow.

(** [Dataset.map(function)]: [function] is called on every row, the
    dictionaries it returns are written as new columns, and every row is
    updated with its dictionary, whose keys win over the row's.  An
    exception of [function] goes through; [ArrowInvalid] is raised when the
    dictionaries cannot be written.  (The rows of a [Dataset] have the same
    columns with the same types, so that with [make_conversation] either
    the first call raises or no call does: which of the two exceptions
    comes first within one split cannot be seen.) *)
Definition Dataset_map (function : row -> result row) (rows : list row)
  : result (list row) :=
  match traverse function rows with
  | Raise e => Raise e
  | Ok outs =>
      match arrow.column (VDict <$> outs) with
      | Some _ => Ok (zip_with (fun (out r : row) => out ∪ r) outs rows)
      | None => Raise ArrowInvalid
      end
  end.

(** [DatasetDict.map(function)]: split by split, in order. *)
Definition DatasetDict_map (function : row -> result row) (dataset : DatasetDict)
  : result DatasetDict :=
  traverse (fun '(split, rows) =>
              match Dataset_map function rows with
              | Ok rows' => Ok (split, rows')
              | Raise e => Raise e
              end)
           dataset.

(** [dataset[split]] *)
Fixpoint DatasetDict_getitem (dataset : DatasetDict) (split : string)
  : result (list row) :=
  match dataset with
  | [] => Raise (KeyError split)
  | (name, rows) :: dataset' =>
      if String.eqb name split then Ok rows else DatasetDict_getitem dataset' split
  end.

(** [reward_funcs_registry[func]] *)
Definition registry_getitem (func : string) : result reward_func :=
  match reward_funcs_registry !! func with
  | Some f => Ok f
  | None => Raise (KeyError func)
  end.

Section pipeline.
(** The dataset and trainer libraries: each call either returns or
    raises; the call is recorded in the world before it is made. *)
Context {trainer : Type}.
Variable load_dataset : value -> result DatasetDict.
Variable GRPOTrainer :
  value -> list reward_func -> list row -> list row -> result trainer.
Variable train : trainer -> result trainer.
Variable save_model : trainer -> value -> result unit.

Definition main (compiled_model_path dataset_name model_output_dir : value)
    (reward_types : list string) (training_args : value) : M unit :=
  reward_funcs <- mapM (fun func => lift (registry_getitem func)) reward_types ;;
  emit (load_dataset_call dataset_name) ;;;
  dataset <- lift (load_dataset dataset_name) ;;
  emit (dataset_map_call dataset) ;;;
  dataset <- lift (DatasetDict_map make_conversation dataset) ;;
  train_dataset <- lift (DatasetDict_getitem dataset "train") ;;
  eval_dataset <- lift (DatasetDict_getitem dataset "test") ;;
  emit (GRPOTrainer_call compiled_model_path reward_funcs train_dataset eval_dataset) ;;;
  trainer <- lift (GRPOTrainer compiled_model_path reward_funcs train_dataset eval_dataset) ;;
  emit train_call ;;;
  trainer <- lift (train trainer) ;;
  emit train_return ;;;
  emit (save_model_call model_output_dir) ;;;
  lift (save_model trainer model_output_dir).
End pipeline.

(** ** The reward functions over a store

    The same two functions once more, with the objects of Python kept in
    a store: lists and dictionaries live at locations, variables and
    slots hold references to them, so that what a function does to the
    objects it was given, and to those it makes itself, can be told
    apart.  A list comprehension makes a new list and appends to it;
    [rewards.append] writes into the list that [rewards] refers to.

    [parse] and [verify] are outside the repository: each is taken as a
    function that gives the result, and a function that tells what the
    call does to the state of its own library (logs, the standard error,
    caches), to which the objects of the caller do not belong. *)

Module store.

Definition loc := positive.

(** What a variable, an argument or a slot of a container holds. *)
Inductive ref :=
| None_
| Int (n : Z)
| Float (x : float)
| Str (s : string)
| Match (end_ : nat)        (* a match object of [re] *)
| Ref (l : loc).            (* a list or a dictionary, by its location *)

Inductive object :=
| List (items : list ref)
| Dict (fields : gmap string ref).

Record Store (E : Type) := mkStore {
  heap : gmap loc object;
  globals : gmap string ref;
  output : list (list ref);       (* the lines printed on the standard output *)
  external : E                    (* the state of the external libraries *)
}.
Arguments mkStore {E} heap globals output external.
Arguments heap {E} s.
Arguments globals {E} s.
Arguments output {E} s.
Arguments external {E} s.

Section functions.
Context {E : Type}.

Definition H (A : Type) : Type := Store E -> result A * Store E.

Definition ret {A} (a : A) : H A := fun st => (Ok a, st).
Definition bind {A B} (c : H A) (k : A -> H B) : H B :=
  fun st => match c st with
            | (Ok a, st') => k a st'
            | (Raise e, st') => (Raise e, st')
            end.

(** A step that reads the store and leaves it as it is. *)
Definition read {A} (f : gmap loc object -> result A) : H A :=
  fun st => (f (heap st), st).

Notation "x <~ c ;; k" := (bind c (fun x => k))
  (at level 100, c at next level, right associativity).
Notation "c ;;~ k" := (bind c (fun _ => k))
  (at level 100, right associativity).

(** A new object, at a location that is not in use. *)
Definition new (o : object) : H ref :=
  fun st =>
    let l := fresh (dom (heap st)) in
    (Ok (Ref l),
     mkStore (<[l := o]> (heap st)) (globals st) (output st) (external st)).

(** [iter(v)], read at once: the items of a list, the keys of a
    dictionary, the characters of a text.  (A reference always has its
    object in a store of Python; one without is given [TypeError].) *)
Definition read_iter (h : gmap loc object) (v : ref) : result (list ref) :=
  match v with
  | Ref l =>
      match h !! l with
      | Some (List items) => Ok items
      | Some (Dict fields) => Ok (Str <$> (map_to_list fields).*1)
      | None => Raise TypeError
      end
  | Str s => Ok ((fun c => Str (String c "")) <$> String.list_ascii_of_string s)
  | _ => Raise TypeError
  end.

(** [v[0]] *)
Definition read_getitem_0 (h : gmap loc object) (v : ref) : result ref :=
  match v with
  | Ref l =>
      match h !! l with
      | Some (List (x :: _)) => Ok x
      | Some (List []) => Raise IndexError
      | Some (Dict _) => Raise (KeyError "0")
      | None => Raise TypeError
      end
  | Str (String c _) => Ok (Str (String c ""))
  | Str "" => Raise IndexError
  | _ => Raise TypeError
  end.

(** [v[key]] for a string [key] *)
Definition read_getitem (h : gmap loc object) (v : ref) (key : string) : result ref :=
  match v with
  | Ref l =>
      match h !! l with
      | Some (Dict fields) =>
          match fields !! key with
          | Some x => Ok x
          | None => Raise (KeyError key)
          end
      | _ => Raise TypeError
      end
  | _ => Raise TypeError
  end.

(** [completion[0]["content"]] *)
Definition first_content (completion : ref) : H ref :=
  m <~ read (fun h => read_getitem_0 h completion) ;;
  read (fun h => read_getitem h m "content").

(** [v.append(x)] *)
Definition append (v x : ref) : H unit :=
  fun st =>
    match v with
    | Ref l =>
        match heap st !! l with
        | Some (List items) =>
            (Ok tt, mkStore (<[l := List (items ++ [x])]> (heap st))
                            (globals st) (output st) (external st))
        | _ => (Raise TypeError, st)
        end
    | _ => (Raise TypeError, st)
    end.

Definition print (args : list ref) : H unit :=
  fun st => (Ok tt, mkStore (heap st) (globals st) (output st ++ [args]) (external st)).

(** A [for] loop over items that were read. *)
Fixpoint foreach {A} (body : A -> H unit) (items : list A) : H unit :=
  match items with
  | [] => ret tt
  | x :: items' => body x ;;~ foreach body items'
  end.

(** A list comprehension [[f x for x in v]]: a new list, to which the
    value of [f] is appended for each item in turn. *)
Definition comprehension (f : ref -> H ref) (v : ref) : H ref :=
  items <~ read (fun h => read_iter h v) ;;
  result <~ new (List []) ;;
  foreach (fun x => y <~ f x ;; append result y) items ;;~
  ret result.

(** [re.match(pattern, content)] *)
Definition re_match (pattern : string) (content : ref) : H ref :=
  fun st =>
    match re.parse pattern with
    | None => (Raise ReError, st)
    | Some code =>
        match content with
        | Str s =>
            (Ok match re.match_here code true s with
                | Some n => Match n
                | None => None_
                end, st)
        | _ => (Raise TypeError, st)
        end
    end.

(** [1.0 if match else 0.0] *)
Definition score (m : ref) : ref :=
  match m with
  | Match _ => Float 1
  | _ => Float 0
  end.

Definition format_reward (completions : ref) (kwargs : gmap string ref) : H ref :=
  let pattern := format_pattern in
  completion_contents <~ comprehension first_content completions ;;
  matches <~ comprehension (re_match pattern) completion_contents ;;
  comprehension (fun m => ret (score m)) matches.

Section accuracy.
Context {parsed : Type}.
Variable parse : ref -> list LatexExtractionConfig -> string -> list parsed.
Variable parse_effect : ref -> list LatexExtractionConfig -> string -> E -> E.
Variable verify : list parsed -> list parsed -> bool.
Variable verify_effect : list parsed -> list parsed -> E -> E.

Definition call_parse (v : ref) (config : list LatexExtractionConfig) (mode : string)
  : H (list parsed) :=
  fun st =>
    (Ok (parse v config mode),
     mkStore (heap st) (globals st) (output st)
             (parse_effect v config mode (external st))).

Definition call_verify (answer gold : list parsed) : H bool :=
  fun st =>
    (Ok (verify answer gold),
     mkStore (heap st) (globals st) (output st)
             (verify_effect answer gold (external st))).

(** The body of the loop of [accuracy_reward]. *)
Definition accuracy_body (rewards : ref) (pair : ref * ref) : H unit :=
  let '(content, sol) := pair in
  gold_parsed <~ call_parse sol [LatexExtractionConfig_default] "first_match" ;;
  if negb (Nat.eqb (length gold_parsed) 0) then
    answer_parsed <~ call_parse content [answer_config] "first_match" ;;
    verified <~ call_verify answer_parsed gold_parsed ;;
    let reward := Float (float_of_bool verified) in
    append rewards reward
  else
    let reward := Float 1 in
    print [Str "Failed to parse gold solution: "; sol] ;;~
    append rewards reward.

Definition accuracy_reward (completions solution : ref) (kwargs : gmap string ref)
  : H ref :=
  contents <~ comprehension first_content completions ;;
  rewards <~ new (List []) ;;
  contents_items <~ read (fun h => read_iter h contents) ;;
  solution_items <~ read (fun h => read_iter h solution) ;;
  foreach (accuracy_body rewards) (zip contents_items solution_items) ;;~
  ret rewards.
End accuracy.
End functions.

(** The objects that were there are all there, as they were, and so are
    the globals. *)
Definition kept {E} (st st' : Store E) : Prop :=
  (forall l o, heap st !! l = Some o -> heap st' !! l = Some o) /\
  globals st' = globals st.

(** The line printed for a solution that cannot be parsed. *)
Definition failure_line (sol : ref) : list ref :=
  [Str "Failed to parse gold solution: "; sol].

End store.

(** ** Notions the statements below use *)

(** The subject matches the pattern of [format_reward] at its beginning. *)
Definition format_matches (s : string) : Prop :=
  exists code, re.parse format_pattern = Some code /\ re.matches code true s.

(** The shape of the texts [format_reward] accepts: the two tagged parts,
    neither holding a newline, and at most one newline after them. *)
Definition well_formatted (s : string) : Prop :=
  exists think answer,
    re.has_newline think = false /\ re.has_newline answer = false /\
    (s = "<think>" +:+ think +:+ "</think><answer>" +:+ answer +:+ "</answer>" \/
     s = "<think>" +:+ think +:+ "</think><answer>" +:+ answer +:+ "</answer>"
           +:+ String re.newline "").

(** A text with a newline between an opening and a closing tag of the
    reasoning or of the answer. *)
Definition multi_line (s : string) : Prop :=
  exists before inside after,
    re.has_newline inside = true /\
    (s = before +:+ "<think>" +:+ inside +:+ "</think>" +:+ after \/
     s = before +:+ "<answer>" +:+ inside +:+ "</answer>" +:+ after).

(** A completion whose first message has a content. *)
Definition has_content (completion : value) : Prop :=
  exists content, first_content completion = Ok content.

(** A completion whose first message has a text as its content. *)
Definition has_text (completion : value) : Prop :=
  exists s, first_content completion = Ok (VStr s).

Definition is_binary (x : float) : Prop := x = 0%float \/ x = 1%float.

(** The line [accuracy_reward] prints for a solution it cannot parse. *)
Definition failure_line (sol : value) : list value :=
  [VStr "Failed to parse gold solution: "; sol].

(** A value that can stand beside a text in one column. *)
Definition text_or_none (v : value) : Prop :=
  v = VNone \/ exists s, v = VStr s.

(** A dataset whose problems, where there are any, are texts or [None]. *)
Definition text_problems (dataset : DatasetDict) : Prop :=
  Forall (fun split : string * list row =>
            Forall (fun r : row => forall problem,
                      r !! "problem" = Some problem -> text_or_none problem)
                   split.2)
         dataset.

(** The Arrow type of the column of dictionaries [make_conversation]
    returns. *)
Definition prompt_type : arrow.type :=
  arrow.struct
    [("prompt",
      arrow.list_ (arrow.struct [("content", arrow.string_); ("role", arrow.string_)]))].

(** Whether the parser finds nothing in a solution. *)
Definition gold_unparseable {parsed : Type}
    (parse : value -> list LatexExtractionConfig -> string -> list parsed)
    (sol : value) : bool :=
  Nat.eqb (length (parse sol [LatexExtractionConfig_default] "first_match")) 0.

(** The calls [main] makes when nothing raises. *)
Definition pipeline (model dataset_name output_dir : value)
    (reward_funcs : list reward_func) (dataset : DatasetDict)
    (train_dataset eval_dataset : list row) : list event :=
  [ load_dataset_call dataset_name;
    dataset_map_call dataset;
    GRPOTrainer_call model reward_funcs train_dataset eval_dataset;
    train_call;
    train_return;
    save_model_call output_dir ].

(** The place of a library call in the pipeline. *)
Definition stage (e : event) : nat :=
  match e with
  | load_dataset_call _ => 0
  | dataset_map_call _ => 1
  | GRPOTrainer_call _ _ _ _ => 2
  | train_call => 3
  | train_return => 4
  | save_model_call _ => 5
  end.

(** The two messages of a prompt. *)
Definition conversation (problem : value) : value :=
  VList [ VDict {[ "role" := VStr "system"; "content" := VStr SYSTEM_PROMPT ]};
          VDict {[ "role" := VStr "user"; "content" := problem ]} ].

(** ** Sample inputs *)

Definition assistant (s : string) : value :=
  VList [VDict {[ "role" := VStr "assistant"; "content" := VStr s ]}].

(** A parser that finds an answer in the texts that begin with a digit,
    and a verifier that compares what was found. *)
Definition sample_parse (v : value) (config : list LatexExtractionConfig)
    (mode : string) : list string :=
  match v with
  | VStr (String c s) =>
      if (48 <=? nat_of_ascii c)%nat && (nat_of_ascii c <=? 57)%nat
      then [String c s] else []
  | _ => []
  end.

Definition sample_verify (answer gold : list string) : bool :=
  bool_decide (answer = gold).

Definition empty_world : World := mkWorld [] [].

(** A store with two completions and two solutions, and libraries that
    write a line to a log of their own at each call. *)
Definition sample_store : store.Store (list string) :=
  store.mkStore
    (<[1%positive := store.List [store.Ref 2%positive; store.Ref 4%positive]]>
     (<[2%positive := store.List [store.Ref 3%positive]]>
     (<[3%positive := store.Dict {[ "content" := store.Str "4" ]}]>
     (<[4%positive := store.List [store.Ref 5%positive]]>
     (<[5%positive := store.Dict {[ "content" := store.Str "7" ]}]>
     (<[6%positive := store.List [store.Str "unknown"; store.Str "7"]]> ∅))))))
    {[ "SYSTEM_PROMPT" := store.Str SYSTEM_PROMPT ]} [] [].

Definition sample_store_parse (v : store.ref) (config : list LatexExtractionConfig)
    (mode : string) : list string :=
  match v with
  | store.Str s => sample_parse (VStr s) config mode
  | _ => []
  end.

Definition sample_parse_effect (v : store.ref) (config : list LatexExtractionConfig)
    (mode : string) (log : list string) : list string :=
  log ++ ["parse"].

Definition sample_verify_effect (answer gold : list string) (log : list string)
  : list string :=
  log ++ ["verify"].

(** ** The script

    The block under [if __name__ == "__main__"]: the constants of the run
    and the call of [main], with an empty dictionary of training
    arguments. *)

Module script.

Definition dataset_name : value := VStr "AI-MO/NuminaMath-TIR".
Definition compiled_model_path : value := VStr "/home/ubuntu/models/traced_qwen".
Definition model_output_dir : value := VStr "/home/ubuntu/models/grpo_qwen".
Definition reward_types : list string := ["accuracy"; "format"].

Definition run {trainer : Type}
    (load_dataset : value -> result DatasetDict)
    (GRPOTrainer : value -> list reward_func -> list row -> list row -> result trainer)
    (train : trainer -> result trainer)
    (save_model : trainer -> value -> result unit) : M unit :=
  main load_dataset GRPOTrainer train save_model
       compiled_model_path dataset_name model_output_dir reward_types (VDict ∅).

End script.

(** What holds of a run that is written out, from what the steps returned. *)
Ltac stages := repeat (intros; split); simpl; congruence.

(** Membership in a list that is written out. *)
Ltac elem_cases H :=
  repeat first
    [ apply elem_of_nil in H; contradiction
    | apply elem_of_cons in H as [H|H]; [try discriminate|] ].

(** ** The matcher against its specification *)

Section matcher.
Import re.

Lemma match_here_min_repeat cs p bos s :
  match_here (MIN_REPEAT cs :: p) bos s =
  match match_here p bos s with
  | Some n => Some n
  | None =>
      match s with
      | String c s' =>
          if accepts cs c then S <$> match_here (MIN_REPEAT cs :: p) false s' else None
      | "" => None
      end
  end.
Proof. destruct s; reflexivity. Qed.

Lemma match_here_sound p : forall bos s,
  is_Some (match_here p bos s) -> matches p bos s.
Proof.
  induction p as [|it p IH]; intros bos s Hs; [constructor|].
  destruct it as [cs|cs| |].
  - destruct s as [|c s]; simpl in Hs; [by destruct Hs|].
    destruct (accepts cs c) eqn:Hc; [|by destruct Hs].
    apply matches_one; [done|]. apply IH.
    destruct (match_here p false s); [eauto|by destruct Hs].
  - revert bos Hs. induction s as [|c s IHs]; intros bos Hs;
      rewrite match_here_min_repeat in Hs;
      destruct (match_here p bos _) eqn:Hp;
      try (apply matches_skip, IH; rewrite Hp; eauto; fail);
      try (by destruct Hs).
    destruct (accepts cs c) eqn:Hc; [|by destruct Hs].
    apply matches_more; [done|]. apply IHs.
    destruct (match_here _ false s); [eauto|by destruct Hs].
  - simpl in Hs. destruct bos; [|by destruct Hs].
    apply matches_beginning, IH, Hs.
  - simpl in Hs. destruct (at_end s) eqn:He; [|by destruct Hs].
    apply matches_end; [done|]. apply IH, Hs.
Qed.

Lemma match_here_complete p bos s :
  matches p bos s -> is_Some (match_here p bos s).
Proof.
  induction 1 as [bos s|p s _ IH|p bos s He _ IH|cs p bos c s Hc _ IH
                 |cs p bos s _ IH|cs p bos c s Hc _ IH].
  - simpl. eauto.
  - exact IH.
  - simpl. by rewrite He.
  - simpl. rewrite Hc. destruct IH as [n ->]. simpl. eauto.
  - rewrite match_here_min_repeat. destruct IH as [n ->]. eauto.
  - rewrite match_here_min_repeat. destruct (match_here p bos _); [eauto|].
    rewrite Hc. destruct IH as [n ->]. simpl. eauto.
Qed.

Lemma match_here_spec p bos s :
  is_Some (match_here p bos s) <-> matches p bos s.
Proof. split; [apply match_here_sound|apply match_here_complete]. Qed.
End matcher.

(** ** The texts the pattern matches *)

Section language.
Import re.

Lemma matches_literal l : forall p bos s,
  matches (literal l ++ p) bos s <->
  exists s', s = l +:+ s' /\ matches p (match l with "" => bos | _ => false end) s'.
Proof.
  induction l as [|c l IH]; intros p bos s; simpl.
  - split; [eauto|]. by intros (s' & -> & H).
  - split.
    + inversion 1 as [| | |cs p' bos' c' s0 Hc Hm| |]; subst.
      apply Ascii.eqb_eq in Hc as <-.
      apply IH in Hm as (s' & -> & Hm). exists s'. split; [done|].
      by destruct l.
    + intros (s' & -> & Hm). apply matches_one; [apply Ascii.eqb_refl|].
      apply IH. exists s'. split; [done|]. by destruct l.
Qed.

Lemma matches_lazy_any p bos s :
  matches (MIN_REPEAT ANY :: p) bos s <->
  exists t s', s = t +:+ s' /\ has_newline t = false /\
               matches p (match t with "" => bos | _ => false end) s'.
Proof.
  split.
  - remember (MIN_REPEAT ANY :: p) as q eqn:Hq.
    induction 1 as [| | | |cs p' bos s Hm _|cs p' bos c s Hc _ IH];
      try discriminate; injection Hq as -> ->.
    + by exists "", s.
    + destruct (IH eq_refl) as (t & s' & -> & Ht & Hm).
      exists (String c t), s'. split; [done|]. split; [|by destruct t].
      simpl in *. by destruct (Ascii.eqb c newline).
  - intros (t & s' & -> & Ht & Hm). revert bos Hm.
    induction t as [|c t IH]; intros bos Hm; simpl in *.
    + by apply matches_skip.
    + apply orb_false_iff in Ht as [Hc Ht].
      apply matches_more; [simpl; by rewrite Hc|].
      apply IH; [done|]. by destruct t.
Qed.

Lemma matches_at_end bos s :
  matches [AT_END] bos s <-> s = "" \/ s = String newline "".
Proof.
  split.
  - inversion 1 as [| |p' bos' s' He _| | |]; subst.
    destruct s as [|c [|c' s]]; simpl in He; try discriminate; [by left|].
    apply Ascii.eqb_eq in He as ->. by right.
  - intros [-> | ->]; apply matches_end; (reflexivity || constructor).
Qed.

Lemma format_pattern_code :
  parse format_pattern =
  Some (AT_BEGINNING :: literal "<think>" ++
        MIN_REPEAT ANY :: literal "</think><answer>" ++
        MIN_REPEAT ANY :: literal "</answer>" ++ [AT_END]).
Proof. reflexivity. Qed.

(** The pattern matches the well-formatted texts and no others. *)
Lemma format_matches_iff s : format_matches s <-> well_formatted s.
Proof.
  unfold format_matches, well_formatted. rewrite format_pattern_code. split.
  - intros (code & [= <-] & Hm).
    inversion Hm as [|p' s' Hm1| | | |]; subst.
    apply (matches_literal "<think>") in Hm1 as (s1 & -> & Hm1).
    apply matches_lazy_any in Hm1 as (think & s2 & -> & Hthink & Hm2).
    replace (match think with "" => false | _ => false end) with false in Hm2
      by (by destruct think).
    apply (matches_literal "</think><answer>") in Hm2 as (s3 & -> & Hm3).
    apply matches_lazy_any in Hm3 as (answer & s4 & -> & Hanswer & Hm4).
    replace (match answer with "" => false | _ => false end) with false in Hm4
      by (by destruct answer).
    apply (matches_literal "</answer>") in Hm4 as (s5 & -> & Hm5).
    apply matches_at_end in Hm5.
    exists think, answer. split; [done|]. split; [done|].
    destruct Hm5 as [-> | ->]; [left|right]; reflexivity.
  - intros (think & answer & Hthink & Hanswer & Hs).
    eexists; split; [reflexivity|].
    apply matches_beginning.
    assert (exists e, (e = "" \/ e = String newline "") /\
              s = "<think>" +:+ think +:+ "</think><answer>" +:+ answer
                    +:+ "</answer>" +:+ e) as (e & He & ->).
    { destruct Hs as [-> | ->]; [exists ""|exists (String newline "")];
        (split; [auto|reflexivity]). }
    apply (matches_literal "<think>"). eexists; split; [reflexivity|].
    apply matches_lazy_any. exists think. eexists; split; [reflexivity|].
    split; [done|].
    replace (match think with "" => false | _ => false end) with false
      by (by destruct think).
    apply (matches_literal "</think><answer>"). eexists; split; [reflexivity|].
    apply matches_lazy_any. exists answer. eexists; split; [reflexivity|].
    split; [done|].
    replace (match answer with "" => false | _ => false end) with false
      by (by destruct answer).
    apply (matches_literal "</answer>"). eexists; split; [reflexivity|].
    by apply matches_at_end.
Qed.
End language.

(** ** Comprehensions *)

Section comprehension.
Context {A B : Type} (f : A -> result B).

Lemma mapM_lift l w : mapM (fun x => lift (f x)) l w = (traverse f l, w).
Proof.
  induction l as [|x l IH]; [done|].
  simpl. unfold bind, lift at 1. destruct (f x); [|done].
  rewrite IH. by destruct (traverse f l).
Qed.

Lemma traverse_Ok l ys :
  traverse f l = Ok ys <-> Forall2 (fun x y => f x = Ok y) l ys.
Proof.
  revert ys. induction l as [|x l IH]; intros ys; simpl.
  - split; [intros [= <-]; constructor|by inversion 1].
  - destruct (f x) as [y|e] eqn:Hx.
    + destruct (traverse f l) as [ys'|e] eqn:Hl.
      * split.
        -- intros [= <-]. constructor; [done|by apply IH].
        -- inversion 1 as [|? y' ? ys'' Hy Hys]; subst.
           apply IH in Hys. congruence.
      * split; [done|]. inversion 1 as [|? y' ? ys'' Hy Hys]; subst.
        apply IH in Hys. done.
    + split; [done|]. inversion 1; congruence.
Qed.

Lemma traverse_total l :
  Forall (fun x => exists y, f x = Ok y) l -> exists ys, traverse f l = Ok ys.
Proof.
  induction 1 as [|x l [y Hy] _ [ys Hys]]; simpl; [eauto|].
  rewrite Hy, Hys. eauto.
Qed.

Lemma traverse_Raise l e :
  traverse f l = Raise e -> exists x, x ∈ l /\ f x = Raise e.
Proof.
  induction l as [|x l IH]; simpl; [done|].
  destruct (f x) as [y|e'] eqn:Hx.
  - destruct (traverse f l) as [ys|e'']; [done|].
    intros [= ->]. destruct IH as (x' & Hin & Hx'); [done|].
    exists x'. split; [by right|done].
  - intros [= ->]. exists x. split; [by left|done].
Qed.
End comprehension.

Lemma traverse_ext {A B} (f : A -> result B) {A'} (g : A' -> result B) l l' :
  Forall2 (fun x x' => f x = g x') l l' -> traverse f l = traverse g l'.
Proof.
  induction 1 as [|x x' l l' Hx _ IH]; simpl; [done|]. by rewrite Hx, IH.
Qed.

(** ** [format_reward] *)

Lemma format_reward_run completions kwargs w :
  format_reward completions kwargs w =
  (match traverse first_content completions with
   | Ok contents =>
       match traverse (re.match_ format_pattern) contents with
       | Ok matches => Ok (score <$> matches)
       | Raise e => Raise e
       end
   | Raise e => Raise e
   end, w).
Proof.
  unfold format_reward, bind. rewrite mapM_lift.
  destruct (traverse first_content completions) as [contents|e]; [|done].
  rewrite mapM_lift. by destruct (traverse _ contents).
Qed.

Lemma score_Some m : is_Some m -> score m = 1%float.
Proof. by intros [n ->]. Qed.

Lemma score_None m : ~ is_Some m -> score m = 0%float.
Proof. destruct m; [intros []; eauto|done]. Qed.

Lemma match_format s :
  exists m, re.match_ format_pattern (VStr s) = Ok m /\ (is_Some m <-> format_matches s).
Proof.
  unfold re.match_, format_matches. rewrite format_pattern_code.
  eexists; split; [reflexivity|]. rewrite match_here_spec.
  split; [eauto|]. by intros (code & [= <-] & Hm).
Qed.

(** The run of [format_reward] on completions that all have a text: every
    text is matched, and the rewards are the scores of the matches. *)
Lemma format_reward_total completions kwargs w :
  Forall has_text completions ->
  exists matches,
    format_reward completions kwargs w = (Ok (score <$> matches), w) /\
    Forall2 (fun completion m =>
               exists s, first_content completion = Ok (VStr s) /\
                         re.match_ format_pattern (VStr s) = Ok m)
            completions matches.
Proof.
  intros Htext. rewrite format_reward_run.
  destruct (traverse_total first_content completions) as [contents Hcontents].
  { eapply Forall_impl; [exact Htext|]. intros c [s Hs]. eauto. }
  rewrite Hcontents. apply traverse_Ok in Hcontents.
  assert (Forall2 (fun completion content =>
                     exists s, first_content completion = Ok (VStr s) /\
                               content = VStr s) completions contents) as Htexts.
  { clear -Htext Hcontents.
    induction Hcontents as [|c content cs contents Hc _ IH]; [constructor|].
    apply Forall_cons in Htext as [[s Hs] Htext].
    constructor; [|by apply IH]. exists s. split; [done|]. congruence. }
  destruct (traverse_total (re.match_ format_pattern) contents) as [ms Hms].
  { clear -Htexts. induction Htexts as [|c content cs contents (s & _ & ->) _ IH];
      constructor; [|done].
    destruct (match_format s) as (m & Hm & _). eauto. }
  rewrite Hms. apply traverse_Ok in Hms.
  exists ms. split; [done|]. clear -Htexts Hms. revert ms Hms.
  induction Htexts as [|c content cs contents (s & Hs & ->) _ IH]; intros ms Hms;
    inversion Hms as [|? m ? ms' Hm Hms']; subst; constructor; eauto.
Qed.

Lemma matched_lookup completions matches i completion s :
  Forall2 (fun completion m =>
             exists s, first_content completion = Ok (VStr s) /\
                       re.match_ format_pattern (VStr s) = Ok m)
          completions matches ->
  completions !! i = Some completion ->
  first_content completion = Ok (VStr s) ->
  exists m, matches !! i = Some m /\ (is_Some m <-> format_matches s).
Proof.
  intros Hall Hi Hs.
  destruct (Forall2_lookup_l _ _ _ _ _ Hall Hi) as (m & Hm & s' & Hs' & Hmatch).
  rewrite Hs in Hs'. injection Hs' as <-.
  destruct (match_format s) as (m' & Hm' & Hiff).
  rewrite Hmatch in Hm'. injection Hm' as <-. eauto.
Qed.

(** The completions whose first message has a text: lists that begin
    with a dictionary holding a text under "content". *)
Lemma first_content_text completion s :
  first_content completion = Ok (VStr s) <->
  exists message rest,
    completion = VList (VDict message :: rest) /\ message !! "content" = Some (VStr s).
Proof.
  split.
  - destruct completion as [| | [|c t] | [|[| | | |message] rest] |]; try done.
    unfold first_content. simpl.
    destruct (message !! "content") as [content|] eqn:Hc; [|done].
    intros [= ->]. eauto.
  - intros (message & rest & -> & Hc). unfold first_content. simpl. by rewrite Hc.
Qed.

(** C1: for completions that are lists beginning with a message whose
    "content" is a text, [format_reward] returns one reward per completion,
    in order, and leaves the world as it was.  The reward of a completion
    is 1.0 when the content of its first message matches
    [^<think>.*?</think><answer>.*?</answer>$] as [re.match] does it, and
    0.0 otherwise.  The texts that match are told without the pattern or
    the matcher, by [well_formatted]: [<think>], anything without a
    newline, [</think><answer>], anything without a newline, [</answer>],
    and then the end of the text or one last newline. *)
Theorem format_reward_spec completions kwargs w :
  Forall (fun completion =>
            exists message rest s,
              completion = VList (VDict message :: rest) /\
              message !! "content" = Some (VStr s)) completions ->
  exists rewards,
    format_reward completions kwargs w = (Ok rewards, w) /\
    length rewards = length completions /\
    forall i message rest s,
      completions !! i = Some (VList (VDict message :: rest)) ->
      message !! "content" = Some (VStr s) ->
      (well_formatted s -> rewards !! i = Some 1%float) /\
      (~ well_formatted s -> rewards !! i = Some 0%float).
Proof.
  intros Hchat.
  assert (Forall has_text completions) as Htext.
  { eapply Forall_impl; [exact Hchat|]. intros c (message & rest & s & Hc & Hs).
    exists s. apply first_content_text. eauto. }
  destruct (format_reward_total completions kwargs w Htext) as (ms & Hrun & Hall).
  exists (score <$> ms). split; [exact Hrun|]. split.
  - rewrite length_fmap. symmetry. by eapply Forall2_length.
  - intros i message rest s Hi Hs.
    assert (first_content (VList (VDict message :: rest)) = Ok (VStr s)) as Hfirst.
    { apply first_content_text. eauto. }
    destruct (matched_lookup _ _ _ _ _ Hall Hi Hfirst) as (m & Hm & Hiff).
    rewrite list_lookup_fmap, Hm. simpl. split; intros Hwf.
    + rewrite score_Some; [done|]. by apply Hiff, format_matches_iff.
    + rewrite score_None; [done|]. by rewrite Hiff, format_matches_iff.
Qed.

Lemma format_reward_spec_witness :
  exists rewards,
    format_reward
      [ VList [ VDict {[ "role" := VStr "assistant";
                         "content" := VStr "<think>2+2</think><answer>4</answer>" ]};
                VDict {[ "role" := VStr "assistant"; "content" := VStr "4" ]} ];
        VList [ VDict {[ "role" := VStr "assistant"; "content" := VStr "4" ]};
                VDict {[ "role" := VStr "assistant";
                         "content" := VStr "<think>2+2</think><answer>4</answer>" ]} ] ]
      ∅ empty_world
    = (Ok rewards, empty_world) /\
    length rewards = 2%nat /\
    rewards !! 0%nat = Some 1%float /\
    rewards !! 1%nat = Some 0%float.
Proof.
  destruct (format_reward_spec
    [ VList [ VDict {[ "role" := VStr "assistant";
                       "content" := VStr "<think>2+2</think><answer>4</answer>" ]};
              VDict {[ "role" := VStr "assistant"; "content" := VStr "4" ]} ];
      VList [ VDict {[ "role" := VStr "assistant"; "content" := VStr "4" ]};
              VDict {[ "role" := VStr "assistant";
                       "content" := VStr "<think>2+2</think><answer>4</answer>" ]} ] ]
    ∅ empty_world) as (rewards & Hrun & Hlen & Hrewards).
  - repeat (apply List.Forall_cons; [eexists _, _, _; split; reflexivity|]).
    apply List.Forall_nil.
  - exists rewards. split; [exact Hrun|]. split; [exact Hlen|]. split.
    + eapply (Hrewards 0%nat); [reflexivity|reflexivity|].
      exists "2+2", "4". split; [reflexivity|]. split; [reflexivity|]. by left.
    + eapply (Hrewards 1%nat); [reflexivity|reflexivity|].
      intros (think & answer & _ & _ & [H | H]); discriminate H.
Defined.

(** ** [accuracy_reward] *)

Section accuracy_facts.
Context {parsed : Type}.
Variable parse : value -> list LatexExtractionConfig -> string -> list parsed.
Variable verify : list parsed -> list parsed -> bool.

#[local] Abbreviation gold sol :=
  (parse sol [LatexExtractionConfig_default] "first_match").
#[local] Abbreviation answer content :=
  (parse content [answer_config] "first_match").

Lemma world_eta w : mkWorld (stdout w) (calls w) = w.
Proof. by destruct w. Qed.

Lemma accuracy_of_parseable content sol w :
  gold sol <> [] ->
  accuracy_of parse verify content sol w =
  (Ok (float_of_bool (verify (answer content) (gold sol))), w).
Proof.
  intros Hgold. unfold accuracy_of. cbv zeta.
  destruct (gold sol); [done|reflexivity].
Qed.

Lemma accuracy_of_unparseable content sol w :
  gold sol = [] ->
  accuracy_of parse verify content sol w =
  (Ok 1%float, mkWorld (stdout w ++ [failure_line sol]) (calls w)).
Proof. intros Hgold. unfold accuracy_of. cbv zeta. by rewrite Hgold. Qed.

Lemma gold_unparseable_nil sol : gold_unparseable parse sol = true <-> gold sol = [].
Proof.
  unfold gold_unparseable. destruct (gold sol); simpl; split; done.
Qed.

(** One turn of the loop: a reward, and a line when the solution cannot
    be parsed. *)
Lemma accuracy_of_run content sol w :
  exists reward,
    accuracy_of parse verify content sol w =
    (Ok reward,
     mkWorld (stdout w ++ (if gold_unparseable parse sol then [failure_line sol] else []))
             (calls w)) /\
    is_binary reward /\
    (gold sol = [] -> reward = 1%float) /\
    (gold sol <> [] -> reward = float_of_bool (verify (answer content) (gold sol))).
Proof.
  destruct (gold_unparseable parse sol) eqn:Hu.
  - apply gold_unparseable_nil in Hu.
    exists 1%float. rewrite accuracy_of_unparseable by done.
    split; [done|]. split; [by right|]. split; [done|]. by intros [].
  - assert (gold sol <> []) as Hgold.
    { intros H. apply gold_unparseable_nil in H. congruence. }
    eexists. rewrite accuracy_of_parseable by done.
    rewrite app_nil_r, world_eta. split; [done|].
    split; [destruct (verify _ _); [by right|by left]|]. split; [done|done].
Qed.

Lemma accuracy_loop_run pairs : forall rewards w,
  exists rewards',
    accuracy_loop parse verify pairs rewards w =
    (Ok (rewards ++ rewards'),
     mkWorld (stdout w ++ (failure_line <$> List.filter (gold_unparseable parse) pairs.*2))
             (calls w)) /\
    Forall2 (fun '(content, sol) reward =>
               is_binary reward /\
               (gold sol = [] -> reward = 1%float) /\
               (gold sol <> [] ->
                reward = float_of_bool (verify (answer content) (gold sol))))
            pairs rewards'.
Proof.
  induction pairs as [|[content sol] pairs IH]; intros rewards w; simpl.
  - exists []. rewrite !app_nil_r, world_eta. split; [done|constructor].
  - destruct (accuracy_of_run content sol w) as (reward & Hrun & Hreward).
    unfold bind. rewrite Hrun.
    destruct (IH (rewards ++ [reward])
                 (mkWorld (stdout w ++ (if gold_unparseable parse sol
                                        then [failure_line sol] else []))
                          (calls w)))
      as (rewards' & Hloop & Hall).
    exists (reward :: rewards'). rewrite Hloop. simpl. split.
    + rewrite <- !app_assoc. simpl.
      by destruct (gold_unparseable parse sol).
    + by constructor.
Qed.

Lemma snd_zip_take {A B} (l : list A) (k : list B) :
  (zip l k).*2 = take (length l) k.
Proof.
  revert k. induction l as [|x l IH]; intros [|y k]; simpl; [done..|].
  by rewrite IH.
Qed.

(** The whole run: an exception of the first comprehension leaves the
    world alone; otherwise the loop gives one reward per pair. *)
Lemma accuracy_reward_run completions solution kwargs w :
  match traverse first_content completions with
  | Raise e =>
      accuracy_reward parse verify completions solution kwargs w = (Raise e, w)
  | Ok contents =>
      exists rewards,
        accuracy_reward parse verify completions solution kwargs w =
        (Ok rewards,
         mkWorld (stdout w ++
                  (failure_line <$>
                   List.filter (gold_unparseable parse) (take (length completions) solution)))
                 (calls w)) /\
        Forall2 (fun '(content, sol) reward =>
                   is_binary reward /\
                   (gold sol = [] -> reward = 1%float) /\
                   (gold sol <> [] ->
                    reward = float_of_bool (verify (answer content) (gold sol))))
                (zip contents solution) rewards
  end.
Proof.
  unfold accuracy_reward, bind. rewrite mapM_lift.
  destruct (traverse first_content completions) as [contents|e] eqn:Hc; [|done].
  destruct (accuracy_loop_run (zip contents solution) [] w) as (rewards & Hrun & Hall).
  exists rewards. rewrite Hrun. split; [|done].
  apply traverse_Ok, Forall2_length in Hc.
  by rewrite snd_zip_take, Hc.
Qed.
End accuracy_facts.

(** C2: when every completion has a content, [accuracy_reward] returns,
    and at every index that has both a completion and a solution whose
    parse is not empty the reward is [float(verify(answer_parsed,
    gold_parsed))]: 1.0 when the verifier accepts, 0.0 when it does not. *)
Theorem accuracy_reward_verified {parsed : Type}
    (parse : value -> list LatexExtractionConfig -> string -> list parsed)
    (verify : list parsed -> list parsed -> bool)
    completions solution kwargs w :
  Forall has_content completions ->
  exists rewards w',
    accuracy_reward parse verify completions solution kwargs w = (Ok rewards, w') /\
    forall i completion content sol,
      completions !! i = Some completion ->
      first_content completion = Ok content ->
      solution !! i = Some sol ->
      let gold_parsed := parse sol [LatexExtractionConfig_default] "first_match" in
      let answer_parsed := parse content [answer_config] "first_match" in
      gold_parsed <> [] ->
      rewards !! i = Some (float_of_bool (verify answer_parsed gold_parsed)) /\
      (verify answer_parsed gold_parsed = true -> rewards !! i = Some 1%float) /\
      (verify answer_parsed gold_parsed = false -> rewards !! i = Some 0%float).
Proof.
  intros Hcontent.
  pose proof (accuracy_reward_run parse verify completions solution kwargs w) as Hrun.
  destruct (traverse_total first_content completions Hcontent) as [contents Hc].
  rewrite Hc in Hrun. destruct Hrun as (rewards & Hrun & Hall).
  eexists rewards, _. split; [exact Hrun|].
  intros i completion content sol Hi Hfirst Hsol. cbv zeta. intros Hgold.
  apply traverse_Ok in Hc.
  destruct (Forall2_lookup_l _ _ _ _ _ Hc Hi) as (content' & Hci & Hcontent').
  rewrite Hfirst in Hcontent'. injection Hcontent' as <-.
  assert (zip contents solution !! i = Some (content, sol)) as Hpair.
  { apply lookup_zip_with_Some. eauto. }
  destruct (Forall2_lookup_l _ _ _ _ _ Hall Hpair) as (reward & Hri & _ & _ & Hreward).
  rewrite Hri, (Hreward Hgold). split; [done|].
  split; intros ->; reflexivity.
Qed.

Lemma accuracy_reward_verified_witness :
  exists rewards w',
    accuracy_reward sample_parse sample_verify
      [assistant "4"; assistant "5"] [VStr "4"; VStr "6"] ∅ empty_world = (Ok rewards, w') /\
    rewards !! 0%nat = Some 1%float /\ rewards !! 1%nat = Some 0%float.
Proof.
  destruct (accuracy_reward_verified sample_parse sample_verify
              [assistant "4"; assistant "5"] [VStr "4"; VStr "6"] ∅ empty_world)
    as (rewards & w' & Hrun & Hrewards).
  - repeat constructor; eexists; reflexivity.
  - exists rewards, w'. split; [exact Hrun|]. split.
    + apply (Hrewards 0%nat (assistant "4") (VStr "4") (VStr "4"));
        [reflexivity..|discriminate|reflexivity].
    + apply (Hrewards 1%nat (assistant "5") (VStr "5") (VStr "6"));
        [reflexivity..|discriminate|reflexivity].
Defined.

(** C8: when every completion has a content, [accuracy_reward] returns,
    and at every index that has both a completion and a solution whose
    parse is empty the reward is 1.0, whatever the content of the
    completion. *)
Theorem accuracy_reward_unparseable_gold {parsed : Type}
    (parse : value -> list LatexExtractionConfig -> string -> list parsed)
    (verify : list parsed -> list parsed -> bool)
    completions solution kwargs w :
  Forall has_content completions ->
  exists rewards w',
    accuracy_reward parse verify completions solution kwargs w = (Ok rewards, w') /\
    forall i sol,
      (i < length completions)%nat ->
      solution !! i = Some sol ->
      parse sol [LatexExtractionConfig_default] "first_match" = [] ->
      rewards !! i = Some 1%float.
Proof.
  intros Hcontent.
  pose proof (accuracy_reward_run parse verify completions solution kwargs w) as Hrun.
  destruct (traverse_total first_content completions Hcontent) as [contents Hc].
  rewrite Hc in Hrun. destruct Hrun as (rewards & Hrun & Hall).
  eexists rewards, _. split; [exact Hrun|].
  intros i sol Hi Hsol Hgold.
  apply traverse_Ok, Forall2_length in Hc.
  destruct (lookup_lt_is_Some_2 contents i) as [content Hci]; [lia|].
  assert (zip contents solution !! i = Some (content, sol)) as Hpair.
  { apply lookup_zip_with_Some. eauto. }
  destruct (Forall2_lookup_l _ _ _ _ _ Hall Hpair) as (reward & Hri & _ & Hreward & _).
  by rewrite Hri, (Hreward Hgold).
Qed.

Lemma accuracy_reward_unparseable_gold_witness :
  exists rewards w',
    accuracy_reward sample_parse sample_verify
      [assistant "4"; assistant "anything"] [VStr "4"; VStr "unknown"] ∅ empty_world
    = (Ok rewards, w') /\
    rewards !! 1%nat = Some 1%float.
Proof.
  destruct (accuracy_reward_unparseable_gold sample_parse sample_verify
              [assistant "4"; assistant "anything"] [VStr "4"; VStr "unknown"] ∅ empty_world)
    as (rewards & w' & Hrun & Hrewards).
  - repeat constructor; eexists; reflexivity.
  - exists rewards, w'. split; [exact Hrun|].
    apply (Hrewards 1%nat (VStr "unknown")); [simpl; lia|reflexivity|reflexivity].
Defined.

(** ** Rewards are 0.0 or 1.0 *)

Lemma float_0_1 : 0%float <> 1%float.
Proof.
  intros H. assert (PrimFloat.eqb 0 1 = true) as E by (rewrite H; reflexivity).
  vm_compute in E. discriminate.
Qed.

Lemma score_binary m : is_binary (score m).
Proof. destruct m; [by right|by left]. Qed.

Lemma format_reward_binary completions kwargs w rewards :
  (format_reward completions kwargs w).1 = Ok rewards -> Forall is_binary rewards.
Proof.
  rewrite format_reward_run. simpl.
  destruct (traverse first_content completions) as [contents|]; [|done].
  destruct (traverse _ contents) as [ms|]; [|done].
  intros [= <-]. apply Forall_fmap, Forall_forall. intros m _. apply score_binary.
Qed.

(** C9: both functions return only 0.0 and 1.0; [format_reward] returns one
    reward per completion, [accuracy_reward] one per pair of a completion
    and a solution, the longer list being cut to the length of the shorter
    one. *)
Theorem rewards_binary :
  (forall completions kwargs w,
     Forall has_text completions ->
     exists rewards,
       format_reward completions kwargs w = (Ok rewards, w) /\
       length rewards = length completions /\
       Forall is_binary rewards) /\
  (forall (parsed : Type)
          (parse : value -> list LatexExtractionConfig -> string -> list parsed)
          (verify : list parsed -> list parsed -> bool)
          completions solution kwargs w,
     Forall has_content completions ->
     exists rewards w',
       accuracy_reward parse verify completions solution kwargs w = (Ok rewards, w') /\
       length rewards = length completions `min` length solution /\
       Forall is_binary rewards).
Proof.
  split.
  - intros completions kwargs w Htext.
    destruct (format_reward_total completions kwargs w Htext) as (ms & Hrun & Hall).
    exists (score <$> ms). split; [done|]. split.
    + rewrite length_fmap. symmetry. by eapply Forall2_length.
    + apply (format_reward_binary completions kwargs w). by rewrite Hrun.
  - intros parsed parse verify completions solution kwargs w Hcontent.
    pose proof (accuracy_reward_run parse verify completions solution kwargs w) as Hrun.
    destruct (traverse_total first_content completions Hcontent) as [contents Hc].
    rewrite Hc in Hrun. destruct Hrun as (rewards & Hrun & Hall).
    eexists rewards, _. split; [exact Hrun|].
    apply traverse_Ok, Forall2_length in Hc. split.
    + rewrite <- (Forall2_length _ _ _ Hall), length_zip_with. lia.
    + apply Forall_forall. intros reward Hin.
      apply list_elem_of_lookup in Hin as [i Hi].
      destruct (Forall2_lookup_r _ _ _ _ _ Hall Hi) as ([content sol] & _ & Hb & _).
      exact Hb.
Qed.

Lemma rewards_binary_witness :
  (exists rewards,
     format_reward [assistant "<think>2+2</think><answer>4</answer>"; assistant "4"] ∅
       empty_world = (Ok rewards, empty_world) /\
     length rewards = 2%nat /\ Forall is_binary rewards) /\
  (exists rewards w',
     accuracy_reward sample_parse sample_verify
       [assistant "4"; assistant "5"; assistant "6"] [VStr "4"; VStr "unknown"] ∅
       empty_world = (Ok rewards, w') /\
     length rewards = 2%nat /\ Forall is_binary rewards).
Proof.
  destruct rewards_binary as [Hformat Haccuracy]. split.
  - apply (Hformat [assistant "<think>2+2</think><answer>4</answer>"; assistant "4"]
                   ∅ empty_world).
    repeat constructor; eexists; reflexivity.
  - apply (Haccuracy string sample_parse sample_verify
                     [assistant "4"; assistant "5"; assistant "6"]
                     [VStr "4"; VStr "unknown"] ∅ empty_world).
    repeat constructor; eexists; reflexivity.
Defined.

(** ** What [format_reward] depends on *)

(** C7: the result of [format_reward] does not depend on the world it runs
    in, and two lists of completions whose first messages have the same
    contents, one by one, get the same result, whatever else the
    completions and the keyword arguments hold. *)
Theorem format_reward_deterministic :
  (forall completions kwargs w1 w2,
     (format_reward completions kwargs w1).1 = (format_reward completions kwargs w2).1) /\
  (forall completions1 completions2 kwargs1 kwargs2 w1 w2,
     Forall2 (fun c1 c2 => first_content c1 = first_content c2) completions1 completions2 ->
     (format_reward completions1 kwargs1 w1).1 = (format_reward completions2 kwargs2 w2).1).
Proof.
  split.
  - intros completions kwargs w1 w2. by rewrite !format_reward_run.
  - intros completions1 completions2 kwargs1 kwargs2 w1 w2 Hsame.
    rewrite !format_reward_run. simpl.
    by rewrite (traverse_ext first_content first_content _ _ Hsame).
Qed.

Lemma format_reward_deterministic_witness :
  (format_reward
     [VList [VDict {[ "content" := VStr "<think>a</think><answer>b</answer>" ]}; VNone]]
     ∅ empty_world).1 =
  (format_reward
     [assistant "<think>a</think><answer>b</answer>"]
     {[ "solution" := VList [VStr "b"] ]}
     (mkWorld [[VStr "earlier output"]] [train_call])).1.
Proof.
  apply (proj2 format_reward_deterministic).
  repeat constructor.
Defined.

(** ** Newlines *)

Section newlines.
Import re.
#[local] Arguments String.append !_ _ / : simpl nomatch.

Lemma append_assoc (a b c : string) : (a +:+ b) +:+ c = a +:+ b +:+ c.
Proof. induction a as [|x a IH]; [done|]. cbn. by rewrite IH. Qed.

Lemma append_nil_r (a : string) : a +:+ "" = a.
Proof. induction a as [|x a IH]; [done|]. cbn. by rewrite IH. Qed.

Lemma has_newline_app a b :
  has_newline (a +:+ b) = has_newline a || has_newline b.
Proof.
  induction a as [|x a IH]; [done|]. cbn. by rewrite IH, orb_assoc.
Qed.

Lemma has_newline_split s :
  has_newline s = true -> exists a b, s = a +:+ String newline b.
Proof.
  induction s as [|x s IH]; [done|]. cbn.
  destruct (Ascii.eqb x newline) eqn:Hx.
  - apply Ascii.eqb_eq in Hx as ->. by exists "", s.
  - intros (a & b & ->)%IH. by exists (String x a), b.
Qed.

(** In a text without newlines followed by at most one newline, nothing
    comes after a newline. *)
Lemma newline_is_last body : forall tail a b,
  has_newline body = false ->
  tail = "" \/ tail = String newline "" ->
  body +:+ tail = a +:+ String newline b ->
  b = "".
Proof.
  induction body as [|x body IH]; intros tail a b Hbody Htail Heq.
  - change ("" +:+ tail) with tail in Heq. destruct Htail as [-> | ->].
    + by destruct a.
    + destruct a as [|y a]; cbn in Heq; [congruence|].
      injection Heq as _ Heq. by destruct a.
  - cbn in Hbody. apply orb_false_iff in Hbody as [Hx Hbody].
    destruct a as [|y a]; cbn in Heq; injection Heq as -> Heq.
    + by rewrite Ascii.eqb_refl in Hx.
    + by apply (IH tail a b).
Qed.

Lemma well_formatted_newline_last s a b :
  well_formatted s -> s = a +:+ String newline b -> b = "".
Proof.
  intros (think & answer & Hthink & Hanswer & Hs) Heq.
  assert (has_newline
            ("<think>" +:+ think +:+ "</think><answer>" +:+ answer +:+ "</answer>")
          = false) as Hbody.
  { rewrite !has_newline_app, Hthink, Hanswer. reflexivity. }
  destruct Hs as [-> | ->].
  - eapply (newline_is_last _ ""); [exact Hbody|by left|].
    by rewrite append_nil_r.
  - eapply (newline_is_last _ (String newline "")); [exact Hbody|by right|].
    rewrite <- Heq. by rewrite ?append_assoc.
Qed.

Lemma multi_line_not_formatted s : multi_line s -> ~ well_formatted s.
Proof.
  intros (before & inside & after & Hin & Hs) Hwf.
  apply has_newline_split in Hin as (a & b & ->).
  destruct Hs as [-> | ->].
  - apply (well_formatted_newline_last _ (before +:+ "<think>" +:+ a)
             (b +:+ "</think>" +:+ after)) in Hwf.
    + destruct b; discriminate.
    + by rewrite !append_assoc.
  - apply (well_formatted_newline_last _ (before +:+ "<answer>" +:+ a)
             (b +:+ "</answer>" +:+ after)) in Hwf.
    + destruct b; discriminate.
    + by rewrite !append_assoc.
Qed.
End newlines.

(** C10: among completions that all have a text, one whose text has a
    newline between [<think>] and [</think>] or between [<answer>] and
    [</answer>] gets 0.0, and one whose text is the two tagged parts without
    newlines followed by a single newline gets 1.0. *)
Theorem format_reward_newlines completions kwargs w :
  Forall has_text completions ->
  exists rewards,
    format_reward completions kwargs w = (Ok rewards, w) /\
    forall i completion s,
      completions !! i = Some completion ->
      first_content completion = Ok (VStr s) ->
      (multi_line s -> rewards !! i = Some 0%float) /\
      (forall think answer,
         re.has_newline think = false -> re.has_newline answer = false ->
         s = "<think>" +:+ think +:+ "</think><answer>" +:+ answer +:+ "</answer>"
               +:+ String re.newline "" ->
         rewards !! i = Some 1%float).
Proof.
  intros Htext.
  destruct (format_reward_total completions kwargs w Htext) as (ms & Hrun & Hall).
  exists (score <$> ms). split; [done|].
  intros i completion s Hi Hs.
  destruct (matched_lookup _ _ _ _ _ Hall Hi Hs) as (m & Hm & Hiff).
  rewrite list_lookup_fmap, Hm. simpl. split.
  - intros Hmulti. rewrite score_None; [done|].
    rewrite Hiff, format_matches_iff. by apply multi_line_not_formatted.
  - intros think answer Hthink Hanswer ->. rewrite score_Some; [done|].
    apply Hiff, format_matches_iff. exists think, answer. auto.
Qed.

Lemma format_reward_newlines_witness :
  exists rewards,
    format_reward
      [assistant ("<think>first" +:+ String re.newline "" +:+ "then</think><answer>4</answer>");
       assistant ("<think>2+2</think><answer>4</answer>" +:+ String re.newline "")]
      ∅ empty_world = (Ok rewards, empty_world) /\
    rewards !! 0%nat = Some 0%float /\ rewards !! 1%nat = Some 1%float.
Proof.
  destruct (format_reward_newlines
      [assistant ("<think>first" +:+ String re.newline "" +:+ "then</think><answer>4</answer>");
       assistant ("<think>2+2</think><answer>4</answer>" +:+ String re.newline "")]
      ∅ empty_world) as (rewards & Hrun & Hrewards).
  - repeat constructor; eexists; reflexivity.
  - exists rewards. split; [exact Hrun|]. split.
    + apply (Hrewards 0%nat
               (assistant ("<think>first" +:+ String re.newline ""
                             +:+ "then</think><answer>4</answer>"))
               _ eq_refl eq_refl).
      exists "", ("first" +:+ String re.newline "" +:+ "then"), "<answer>4</answer>".
      split; [reflexivity|left; reflexivity].
    + apply (proj2 (Hrewards 1%nat
               (assistant ("<think>2+2</think><answer>4</answer>" +:+ String re.newline ""))
               _ eq_refl eq_refl) "2+2" "4"); reflexivity.
Defined.

(** ** Effects of the reward functions *)

(** [accuracy_reward] prints whenever a paired solution cannot be parsed,
    with any parser and any verifier. *)
Lemma accuracy_reward_prints_unparseable {parsed : Type}
    (parse : value -> list LatexExtractionConfig -> string -> list parsed)
    (verify : list parsed -> list parsed -> bool) completion sol kwargs w :
  has_content completion ->
  parse sol [LatexExtractionConfig_default] "first_match" = [] ->
  (accuracy_reward parse verify [completion] [sol] kwargs w).2 =
  mkWorld (stdout w ++ [failure_line sol]) (calls w).
Proof.
  intros [content Hcontent] Hgold.
  pose proof (accuracy_reward_run parse verify [completion] [sol] kwargs w) as Hrun.
  simpl in Hrun. rewrite Hcontent in Hrun.
  destruct Hrun as (rewards & -> & _). simpl.
  unfold gold_unparseable. by rewrite Hgold.
Qed.

(** C3, as stated, fails: on a solution that the parser cannot read,
    [accuracy_reward] writes a line to the standard output. *)
Lemma accuracy_reward_has_output :
  stdout (accuracy_reward sample_parse sample_verify
            [assistant "4"] [VStr "unknown"] ∅ empty_world).2
  = [[VStr "Failed to parse gold solution: "; VStr "unknown"]] /\
  (accuracy_reward sample_parse sample_verify
     [assistant "4"] [VStr "unknown"] ∅ empty_world).2 <> empty_world.
Proof. split; [reflexivity|discriminate]. Qed.

(** The standard output of the two functions, on values: [format_reward]
    leaves the world as it was, whatever it returns.  [accuracy_reward]
    makes no call into the dataset and trainer libraries; when it raises,
    it has written nothing; when it returns, it has written one line for
    each solution that is paired with a completion and cannot be parsed, in
    the order of the solutions, and nothing else. *)
Theorem reward_effects :
  (forall completions kwargs w, (format_reward completions kwargs w).2 = w) /\
  (forall (parsed : Type)
          (parse : value -> list LatexExtractionConfig -> string -> list parsed)
          (verify : list parsed -> list parsed -> bool)
          completions solution kwargs w,
     let run := accuracy_reward parse verify completions solution kwargs w in
     calls run.2 = calls w /\
     stdout run.2 =
     stdout w ++
     match run.1 with
     | Ok _ => failure_line <$>
               List.filter (gold_unparseable parse) (take (length completions) solution)
     | Raise _ => []
     end).
Proof.
  split.
  - intros completions kwargs w. by rewrite format_reward_run.
  - intros parsed parse verify completions solution kwargs w. cbv zeta.
    pose proof (accuracy_reward_run parse verify completions solution kwargs w) as Hrun.
    destruct (traverse first_content completions) as [contents|e].
    + destruct Hrun as (rewards & -> & _). done.
    + rewrite Hrun. simpl. by rewrite app_nil_r.
Qed.

(** ** Effects of the reward functions, over the store *)

Section store_facts.
Context {E : Type}.
Implicit Types st b : store.Store E.

Lemma kept_refl st : store.kept st st.
Proof. by split. Qed.

Lemma kept_trans st1 st2 st3 :
  store.kept st1 st2 -> store.kept st2 st3 -> store.kept st1 st3.
Proof. intros [H1 G1] [H2 G2]. split; [auto|congruence]. Qed.

Lemma bind_Ok {A B} (c : store.H A) (k : A -> store.H B) st a st1 :
  c st = (Ok a, st1) -> store.bind c k st = k a st1.
Proof. unfold store.bind. by intros ->. Qed.

Lemma bind_Raise {A B} (c : store.H A) (k : A -> store.H B) st e st1 :
  c st = (Raise e, st1) -> store.bind c k st = (Raise e, st1).
Proof. unfold store.bind. by intros ->. Qed.

Lemma foreach_cons_Ok {A} (body : A -> store.H unit) x items st st1 :
  body x st = (Ok tt, st1) ->
  store.foreach body (x :: items) st = store.foreach body items st1.
Proof. intros Hx. simpl. by rewrite (bind_Ok _ _ _ _ _ Hx). Qed.

Lemma foreach_cons_Raise {A} (body : A -> store.H unit) x items st e st1 :
  body x st = (Raise e, st1) ->
  store.foreach body (x :: items) st = (Raise e, st1).
Proof. intros Hx. simpl. by rewrite (bind_Raise _ _ _ _ _ Hx). Qed.

(** A new object is at a location the base store does not use. *)
Lemma new_spec b st o :
  store.kept b st ->
  exists l,
    store.new o st =
    (Ok (store.Ref l),
     store.mkStore (<[l := o]> (store.heap st)) (store.globals st) (store.output st)
                   (store.external st)) /\
    store.heap st !! l = None /\ store.heap b !! l = None /\
    store.kept b (store.new o st).2 /\ store.kept st (store.new o st).2.
Proof.
  intros [Hheap Hglobals]. exists (fresh (dom (store.heap st))).
  assert (store.heap st !! fresh (dom (store.heap st)) = None) as Hfresh.
  { apply not_elem_of_dom, is_fresh. }
  split; [done|]. split; [done|].
  assert (store.heap b !! fresh (dom (store.heap st)) = None) as Hbase.
  { destruct (store.heap b !! _) as [o'|] eqn:Hb; [|done].
    apply Hheap in Hb. congruence. }
  split; [done|]. split; (split; [|done]); simpl; intros l o' Hl.
  - rewrite lookup_insert_ne; [auto|]. intros <-. congruence.
  - rewrite lookup_insert_ne; [auto|]. intros <-. congruence.
Qed.

(** Appending to a list of one's own keeps what the base store holds. *)
Lemma append_spec b st l x items :
  store.kept b st -> store.heap b !! l = None ->
  store.heap st !! l = Some (store.List items) ->
  store.append (store.Ref l) x st =
  (Ok tt,
   store.mkStore (<[l := store.List (items ++ [x])]> (store.heap st))
                 (store.globals st) (store.output st) (store.external st)) /\
  store.kept b (store.append (store.Ref l) x st).2.
Proof.
  intros [Hheap Hglobals] Hown Hl. unfold store.append. rewrite Hl.
  split; [done|]. split; [|done]. simpl. intros l' o Hl'.
  rewrite lookup_insert_ne; [auto|]. intros <-. congruence.
Qed.

(** The loop of a comprehension whose function only reads. *)
Lemma comprehension_loop (f : store.ref -> store.H store.ref) b l items :
  (forall x st, (f x st).2 = st) ->
  forall st ys,
    store.kept b st -> store.heap b !! l = None ->
    store.heap st !! l = Some (store.List ys) ->
    let run := store.foreach
                 (fun x => store.bind (f x) (fun y => store.append (store.Ref l) y))
                 items st in
    store.kept b run.2 /\
    store.output run.2 = store.output st /\
    store.external run.2 = store.external st /\
    exists ys', store.heap run.2 !! l = Some (store.List (ys ++ ys')) /\
                (run.1 = Ok tt -> length ys' = length items).
Proof.
  intros Hpure. induction items as [|x items IH]; intros st ys Hkept Hown Hl; cbv zeta.
  - simpl. repeat split; try apply Hkept. exists []. by rewrite app_nil_r.
  - pose proof (Hpure x st) as Hx.
    destruct (f x st) as [[y|e] st1] eqn:Hf; simpl in Hx; subst st1.
    + destruct (append_spec b st l y ys Hkept Hown Hl) as [Happ Hkept'].
      rewrite Happ in Hkept'. simpl in Hkept'.
      rewrite (foreach_cons_Ok
                 (fun x => store.bind (f x) (fun y => store.append (store.Ref l) y))
                 x items st _ (eq_trans (bind_Ok _ _ _ _ _ Hf) Happ)).
      destruct (IH _ (ys ++ [y]) Hkept' Hown) as (Hk & Ho & He & ys' & Hl' & Hlen).
      { simpl. apply lookup_insert_eq. }
      split; [done|]. split; [done|]. split; [done|].
      exists (y :: ys'). rewrite <- app_assoc in Hl'. split; [done|].
      intros Hok. simpl. f_equal. by apply Hlen.
    + rewrite (foreach_cons_Raise
                 (fun x => store.bind (f x) (fun y => store.append (store.Ref l) y))
                 x items st e st (bind_Raise _ _ _ _ _ Hf)).
      simpl. repeat split; try apply Hkept. exists []. by rewrite app_nil_r.
Qed.

(** A comprehension whose function only reads: nothing that was there is
    touched, nothing is printed, and the result is a new list with one
    item for each item read. *)
Lemma comprehension_spec (f : store.ref -> store.H store.ref) v st :
  (forall x st, (f x st).2 = st) ->
  let run := store.comprehension f v st in
  store.kept st run.2 /\
  store.output run.2 = store.output st /\
  store.external run.2 = store.external st /\
  forall r, run.1 = Ok r ->
    exists l items ys,
      r = store.Ref l /\ store.heap st !! l = None /\
      store.read_iter (store.heap st) v = Ok items /\
      store.heap run.2 !! l = Some (store.List ys) /\ length ys = length items.
Proof.
  intros Hpure. cbv zeta. unfold store.comprehension.
  destruct (store.read_iter (store.heap st) v) as [items|e] eqn:Hitems.
  2:{ rewrite (bind_Raise _ _ st e st) by (unfold store.read; by rewrite Hitems).
      simpl. split; [apply kept_refl|]. by repeat split. }
  rewrite (bind_Ok _ _ st items st) by (unfold store.read; by rewrite Hitems).
  destruct (new_spec st st (store.List []) (kept_refl st))
    as (l & Hnew & Hfresh & _ & Hkept & _).
  rewrite (bind_Ok _ _ _ _ _ Hnew). rewrite Hnew in Hkept. simpl in Hkept.
  pose proof (comprehension_loop f st l items Hpure _ [] Hkept Hfresh
                (lookup_insert_eq _ _ _)) as Hloop.
  cbv zeta in Hloop. destruct Hloop as (Hk & Ho & He & ys & Hl & Hlen).
  destruct (store.foreach _ items _) as [[[]|e] st'] eqn:Hrun.
  - rewrite (bind_Ok _ _ _ _ _ Hrun). simpl in *.
    split; [done|]. split; [done|]. split; [done|].
    intros r [= <-]. exists l, items, ys. by rewrite Hlen.
  - rewrite (bind_Raise _ _ _ _ _ Hrun). simpl in *.
    split; [done|]. split; [done|]. split; [done|]. done.
Qed.

Lemma first_content_reads x st : (store.first_content (E := E) x st).2 = st.
Proof.
  unfold store.first_content, store.bind, store.read. simpl.
  by destruct (store.read_getitem_0 _ _).
Qed.

Lemma re_match_reads pattern x st : (store.re_match (E := E) pattern x st).2 = st.
Proof.
  unfold store.re_match. destruct (re.parse pattern); [|done]. by destruct x.
Qed.

(** [format_reward] over the store: a frame. *)
Lemma format_reward_frame completions kwargs st :
  let st' := (store.format_reward completions kwargs st).2 in
  store.kept st st' /\
  store.output st' = store.output st /\
  store.external st' = store.external st.
Proof.
  cbv zeta. unfold store.format_reward. cbv zeta.
  pose proof (comprehension_spec store.first_content completions st first_content_reads)
    as H1.
  cbv zeta in H1. destruct H1 as (Hk1 & Ho1 & He1 & _).
  destruct (store.comprehension store.first_content completions st) as [[c|e] st1]
    eqn:Hc1; simpl in *.
  2:{ by rewrite (bind_Raise _ _ _ _ _ Hc1). }
  rewrite (bind_Ok _ _ _ _ _ Hc1).
  pose proof (comprehension_spec (store.re_match format_pattern) c st1
                (re_match_reads format_pattern)) as H2.
  cbv zeta in H2. destruct H2 as (Hk2 & Ho2 & He2 & _).
  destruct (store.comprehension (store.re_match format_pattern) c st1) as [[m|e] st2]
    eqn:Hc2; simpl in *.
  2:{ rewrite (bind_Raise _ _ _ _ _ Hc2). simpl.
      split; [eauto using kept_trans|]. split; congruence. }
  rewrite (bind_Ok _ _ _ _ _ Hc2).
  pose proof (comprehension_spec (fun m => store.ret (store.score m)) m st2) as H3.
  cbv zeta in H3. destruct H3 as (Hk3 & Ho3 & He3 & _); [done|].
  split; [eauto using kept_trans|]. split; congruence.
Qed.
End store_facts.

Section store_accuracy.
Context {E parsed : Type}.
Variable parse : store.ref -> list LatexExtractionConfig -> string -> list parsed.
Variable parse_effect : store.ref -> list LatexExtractionConfig -> string -> E -> E.
Variable verify : list parsed -> list parsed -> bool.
Variable verify_effect : list parsed -> list parsed -> E -> E.
Implicit Types st b : store.Store E.

#[local] Abbreviation unparseable sol :=
  (Nat.eqb (length (parse sol [LatexExtractionConfig_default] "first_match")) 0).

#[local] Abbreviation through_libraries e e' :=
  (forall P : E -> Prop,
     (forall v config mode e0, P e0 -> P (parse_effect v config mode e0)) ->
     (forall answer gold e0, P e0 -> P (verify_effect answer gold e0)) ->
     P e -> P e').

(** One turn of the loop: a reward is appended to the list of rewards, a
    line is printed when the solution cannot be parsed, and the state of
    the libraries moves only by their calls. *)
Lemma accuracy_body_spec b l content sol st items :
  store.kept b st -> store.heap b !! l = None ->
  store.heap st !! l = Some (store.List items) ->
  exists st' reward,
    store.accuracy_body parse parse_effect verify verify_effect
      (store.Ref l) (content, sol) st = (Ok tt, st') /\
    store.kept b st' /\
    store.heap st' !! l = Some (store.List (items ++ [reward])) /\
    store.output st' =
    store.output st ++ (if unparseable sol then [store.failure_line sol] else []) /\
    through_libraries (store.external st) (store.external st').
Proof.
  intros Hkept Hown Hl.
  unfold store.accuracy_body, store.bind, store.call_parse, store.call_verify,
    store.print, store.append. simpl.
  destruct (unparseable sol); simpl; rewrite Hl; eexists _, _; (split; [reflexivity|]);
    simpl.
  - split; [|split; [apply lookup_insert_eq|split; [done|]]].
    + destruct Hkept as [Hheap Hglobals]. split; [|done]. simpl. intros l' o Hl'.
      rewrite lookup_insert_ne; [auto|]. intros <-. congruence.
    + intros P Hparse Hverify HP. by apply Hparse.
  - split; [|split; [apply lookup_insert_eq|split; [by rewrite app_nil_r|]]].
    + destruct Hkept as [Hheap Hglobals]. split; [|done]. simpl. intros l' o Hl'.
      rewrite lookup_insert_ne; [auto|]. intros <-. congruence.
    + intros P Hparse Hverify HP. by apply Hverify, Hparse, Hparse.
Qed.

Lemma accuracy_loop_frame b l pairs : forall st items,
  store.kept b st -> store.heap b !! l = None ->
  store.heap st !! l = Some (store.List items) ->
  exists st',
    store.foreach (store.accuracy_body parse parse_effect verify verify_effect
                     (store.Ref l)) pairs st = (Ok tt, st') /\
    store.kept b st' /\
    store.output st' =
    store.output st ++
    (store.failure_line <$> List.filter (fun sol => unparseable sol) pairs.*2) /\
    through_libraries (store.external st) (store.external st').
Proof.
  induction pairs as [|[content sol] pairs IH]; intros st items Hkept Hown Hl.
  - exists st. simpl. rewrite app_nil_r. repeat split; try apply Hkept. auto.
  - destruct (accuracy_body_spec b l content sol st items Hkept Hown Hl)
      as (st1 & reward & Hbody & Hkept1 & Hl1 & Hout1 & Hext1).
    rewrite (foreach_cons_Ok _ _ _ _ _ Hbody).
    destruct (IH st1 _ Hkept1 Hown Hl1) as (st' & Hrun & Hkept' & Hout' & Hext').
    exists st'. split; [done|]. split; [done|]. split.
    + rewrite Hout', Hout1, <- app_assoc. f_equal. simpl.
      by destruct (unparseable sol).
    + intros P Hparse Hverify HP. apply Hext'; [done..|]. by apply Hext1.
Qed.

End store_accuracy.

(** C3, amended, over the store.  [format_reward] changes no object that
    was there before the call, the objects given as arguments among them,
    no global, prints nothing and leaves the state of the libraries as it
    was.  [accuracy_reward] changes no object that was there and no
    global, and the state of the libraries moves only by the calls of
    [parse] and [verify]; when it raises, it has printed nothing and called
    neither; when it returns, it has printed one line for each solution
    that is paired with a completion and cannot be parsed, in the order of
    the solutions, and nothing else. *)
Theorem reward_frame :
  (forall (E : Type) completions kwargs (st : store.Store E),
     let st' := (store.format_reward completions kwargs st).2 in
     store.kept st st' /\
     store.output st' = store.output st /\
     store.external st' = store.external st) /\
  (forall (E parsed : Type)
          (parse : store.ref -> list LatexExtractionConfig -> string -> list parsed)
          (parse_effect : store.ref -> list LatexExtractionConfig -> string -> E -> E)
          (verify : list parsed -> list parsed -> bool)
          (verify_effect : list parsed -> list parsed -> E -> E)
          completions solution kwargs (st : store.Store E),
     let run := store.accuracy_reward parse parse_effect verify verify_effect
                  completions solution kwargs st in
     store.kept st run.2 /\
     (forall P : E -> Prop,
        (forall v config mode e, P e -> P (parse_effect v config mode e)) ->
        (forall answer gold e, P e -> P (verify_effect answer gold e)) ->
        P (store.external st) -> P (store.external run.2)) /\
     match run.1 with
     | Raise _ =>
         store.output run.2 = store.output st /\
         store.external run.2 = store.external st
     | Ok _ =>
         forall completion_items solution_items,
           store.read_iter (store.heap st) completions = Ok completion_items ->
           store.read_iter (store.heap st) solution = Ok solution_items ->
           store.output run.2 =
           store.output st ++
           (store.failure_line <$>
            List.filter
              (fun sol =>
                 Nat.eqb (length (parse sol [LatexExtractionConfig_default] "first_match"))
                         0)
              (take (length completion_items) solution_items))
     end).
Proof.
  split.
  { intros E completions kwargs st. apply format_reward_frame. }
  intros E parsed parse parse_effect verify verify_effect completions solution kwargs st.
  cbv zeta. unfold store.accuracy_reward.
  pose proof (comprehension_spec store.first_content completions st first_content_reads)
    as H1.
  cbv zeta in H1. destruct H1 as (Hk1 & Ho1 & He1 & Hlist).
  destruct (store.comprehension store.first_content completions st) as [[c|e] st1]
    eqn:Hc1; simpl in *.
  2:{ rewrite (bind_Raise _ _ _ _ _ Hc1). simpl. split; [done|].
      split; [|done]. intros P _ _. by rewrite He1. }
  rewrite (bind_Ok _ _ _ _ _ Hc1).
  destruct (Hlist c eq_refl) as (lc & citems & ys & -> & Hfresh & Hread & Hlc & Hlen).
  destruct (new_spec st st1 (store.List []) Hk1)
    as (lr & Hnew & Hfresh1 & Hown & Hkept2 & _).
  rewrite (bind_Ok _ _ _ _ _ Hnew). rewrite Hnew in Hkept2. simpl in Hkept2.
  set (st2 := store.mkStore _ _ _ _) in *.
  assert (store.read_iter (store.heap st2) (store.Ref lc) = Ok ys) as Hys.
  { simpl. rewrite lookup_insert_ne; [by rewrite Hlc|]. intros <-. congruence. }
  rewrite (bind_Ok _ _ st2 ys st2) by (unfold store.read; by rewrite Hys).
  destruct (store.read_iter (store.heap st2) solution) as [ss|e] eqn:Hss.
  2:{ rewrite (bind_Raise _ _ st2 e st2) by (unfold store.read; by rewrite Hss).
      simpl. split; [done|]. split; [|by rewrite Ho1, He1].
      intros P _ _. by rewrite He1. }
  rewrite (bind_Ok _ _ st2 ss st2) by (unfold store.read; by rewrite Hss).
  destruct (accuracy_loop_frame parse parse_effect verify verify_effect
              st lr (zip ys ss) st2 [] Hkept2 Hown)
    as (st' & Hrun & Hkept' & Hout' & Hext').
  { simpl. apply lookup_insert_eq. }
  rewrite (bind_Ok _ _ _ _ _ Hrun). simpl.
  split; [done|]. split.
  - intros P Hparse Hverify HP. apply Hext'; [done..|]. simpl. by rewrite He1.
  - intros completion_items solution_items Hci Hsi.
    rewrite Hci in Hread. injection Hread as <-.
    assert (ss = solution_items) as ->.
    { destruct solution as [| | | | |ls]; unfold store.read_iter in Hss, Hsi;
        try congruence.
      destruct (store.heap st !! ls) as [o|] eqn:Hls; [|done].
      destruct Hkept2 as [Hheap _]. rewrite (Hheap _ _ Hls) in Hss. congruence. }
    rewrite Hout'. simpl. rewrite Ho1. do 2 f_equal.
    by rewrite snd_zip_take, Hlen.
Qed.

Lemma reward_frame_witness :
  let run := store.accuracy_reward sample_store_parse sample_parse_effect
               sample_verify sample_verify_effect
               (store.Ref 1%positive) (store.Ref 6%positive) ∅ sample_store in
  store.heap run.2 !! 1%positive
  = Some (store.List [store.Ref 2%positive; store.Ref 4%positive]) /\
  store.heap run.2 !! 6%positive
  = Some (store.List [store.Str "unknown"; store.Str "7"]) /\
  store.globals run.2 = store.globals sample_store /\
  store.output run.2 = [[store.Str "Failed to parse gold solution: "; store.Str "unknown"]].
Proof.
  cbv zeta.
  destruct (proj2 reward_frame (list string) string sample_store_parse sample_parse_effect
              sample_verify sample_verify_effect
              (store.Ref 1%positive) (store.Ref 6%positive) ∅ sample_store)
    as ([Hheap Hglobals] & _ & Hout).
  split; [apply Hheap; reflexivity|]. split; [apply Hheap; reflexivity|].
  split; [exact Hglobals|].
  assert ((store.accuracy_reward sample_store_parse sample_parse_effect
             sample_verify sample_verify_effect
             (store.Ref 1%positive) (store.Ref 6%positive) ∅ sample_store).1
          = Ok (store.Ref 8%positive)) as Hok by (vm_compute; reflexivity).
  rewrite Hok in Hout.
  apply (Hout [store.Ref 2%positive; store.Ref 4%positive]
              [store.Str "unknown"; store.Str "7"]); reflexivity.
Defined.

(** ** The pipeline of [main] *)

Section pipeline_facts.
Context {trainer : Type}.
Variable load_dataset : value -> result DatasetDict.
Variable GRPOTrainer :
  value -> list reward_func -> list row -> list row -> result trainer.
Variable train : trainer -> result trainer.
Variable save_model : trainer -> value -> result unit.
Variables compiled_model_path dataset_name model_output_dir : value.
Variable reward_types : list string.
Variable training_args : value.

#[local] Abbreviation run w :=
  (main load_dataset GRPOTrainer train save_model
        compiled_model_path dataset_name model_output_dir reward_types training_args w).

(** The calls of a run are the first [n] calls of the pipeline: each call
    is made once all the steps before it have returned. *)
Lemma main_run w :
  exists n reward_funcs dataset dataset' train_dataset eval_dataset,
    (run w).2 =
    mkWorld (stdout w)
            (calls w ++
             take n (pipeline compiled_model_path dataset_name model_output_dir
                              reward_funcs dataset train_dataset eval_dataset)) /\
    n <= 6 /\
    (1 <= n -> traverse registry_getitem reward_types = Ok reward_funcs) /\
    (2 <= n -> load_dataset dataset_name = Ok dataset) /\
    (3 <= n ->
     DatasetDict_map make_conversation dataset = Ok dataset' /\
     DatasetDict_getitem dataset' "train" = Ok train_dataset /\
     DatasetDict_getitem dataset' "test" = Ok eval_dataset) /\
    (4 <= n ->
     exists t, GRPOTrainer compiled_model_path reward_funcs train_dataset eval_dataset
               = Ok t /\
               (5 <= n -> exists t', train t = Ok t' /\ n = 6 /\
                                     (run w).1 = save_model t' model_output_dir)).
Proof.
  unfold run, main, bind. rewrite mapM_lift.
  destruct (traverse registry_getitem reward_types) as [reward_funcs|e] eqn:Hrf.
  2:{ exists 0, [], [], [], [], []. simpl. rewrite app_nil_r, world_eta.
      repeat split; intros; lia. }
  unfold emit, lift. simpl.
  destruct (load_dataset dataset_name) as [dataset|e] eqn:Hload.
  2:{ exists 1, reward_funcs, [], [], [], []. simpl.
      repeat split; try done; intros; lia. }
  destruct (DatasetDict_map make_conversation dataset) as [dataset'|e] eqn:Hmap.
  2:{ exists 2, reward_funcs, dataset, [], [], []. simpl. rewrite <- app_assoc.
      repeat split; try done; intros; lia. }
  destruct (DatasetDict_getitem dataset' "train") as [train_dataset|e] eqn:Htrain.
  2:{ exists 2, reward_funcs, dataset, [], [], []. simpl. rewrite <- app_assoc.
      repeat split; try done; intros; lia. }
  destruct (DatasetDict_getitem dataset' "test") as [eval_dataset|e] eqn:Htest.
  2:{ exists 2, reward_funcs, dataset, [], [], []. simpl. rewrite <- app_assoc.
      repeat split; try done; intros; lia. }
  simpl.
  destruct (GRPOTrainer compiled_model_path reward_funcs train_dataset eval_dataset)
    as [t|e] eqn:Hinit.
  2:{ exists 3, reward_funcs, dataset, dataset', train_dataset, eval_dataset.
      simpl. rewrite <- !app_assoc.
      repeat split; try done; intros; lia. }
  destruct (train t) as [t'|e] eqn:Htrained.
  2:{ exists 4, reward_funcs, dataset, dataset', train_dataset, eval_dataset.
      simpl. rewrite <- !app_assoc.
      repeat split; try done; try (intros; lia).
      all: intros _; exists t; split; [done|]; intros; lia. }
  exists 6, reward_funcs, dataset, dataset', train_dataset, eval_dataset.
  simpl. rewrite <- !app_assoc.
  repeat split; try done.
  all: intros _; exists t; split; [done|]; intros _; exists t'.
  all: repeat split; try done; by destruct (save_model t' model_output_dir).
Qed.
End pipeline_facts.

(** Where the trainer is built in a beginning of the pipeline. *)
Lemma pipeline_trainer_call n model dataset_name output_dir reward_funcs dataset
    train_dataset eval_dataset model' reward_funcs' train_dataset' eval_dataset' :
  GRPOTrainer_call model' reward_funcs' train_dataset' eval_dataset'
    ∈ take n (pipeline model dataset_name output_dir reward_funcs dataset
                       train_dataset eval_dataset) ->
  3 <= n /\ model' = model /\ reward_funcs' = reward_funcs /\
  train_dataset' = train_dataset /\ eval_dataset' = eval_dataset.
Proof.
  intros Hin.
  do 7 (destruct n as [|n];
        [simpl in Hin;
         repeat first [ apply elem_of_nil in Hin; contradiction
                      | apply elem_of_cons in Hin as [Hin|Hin];
                        [try discriminate|] ];
         try (injection Hin as -> -> -> ->; split; [lia|done])
        |]).
  simpl in Hin.
  repeat first [ apply elem_of_nil in Hin; contradiction
               | apply elem_of_cons in Hin as [Hin|Hin]; [try discriminate|] ].
  injection Hin as -> -> -> ->. split; [lia|done].
Qed.

(** When no step raises, [main] makes all the calls of the pipeline. *)
Lemma main_completes {trainer : Type}
    (load_dataset : value -> result DatasetDict)
    (GRPOTrainer : value -> list reward_func -> list row -> list row -> result trainer)
    (train : trainer -> result trainer)
    (save_model : trainer -> value -> result unit)
    model dataset_name output_dir reward_types training_args w
    reward_funcs dataset dataset' train_dataset eval_dataset t t' :
  traverse registry_getitem reward_types = Ok reward_funcs ->
  load_dataset dataset_name = Ok dataset ->
  DatasetDict_map make_conversation dataset = Ok dataset' ->
  DatasetDict_getitem dataset' "train" = Ok train_dataset ->
  DatasetDict_getitem dataset' "test" = Ok eval_dataset ->
  GRPOTrainer model reward_funcs train_dataset eval_dataset = Ok t ->
  train t = Ok t' ->
  main load_dataset GRPOTrainer train save_model model dataset_name output_dir
       reward_types training_args w
  = (save_model t' output_dir,
     mkWorld (stdout w)
             (calls w ++ pipeline model dataset_name output_dir reward_funcs dataset
                                  train_dataset eval_dataset)).
Proof.
  intros Hrf Hload Hmap Htrain Htest Hinit Htrained.
  unfold main, bind. rewrite mapM_lift, Hrf. unfold emit, lift. simpl.
  rewrite Hload, Hmap, Htrain, Htest. simpl. rewrite Hinit, Htrained.
  rewrite <- !app_assoc. by destruct (save_model t' output_dir).
Qed.

(** ** Prompts *)

Lemma SYSTEM_PROMPT_text :
  SYSTEM_PROMPT =
  "A conversation between User and Assistant. The user asks a question, and the Assistant solves it. The assistant first thinks about the reasoning process in the mind and then provides the user with the answer. The reasoning process and answer are enclosed within <think> </think> and <answer> </answer> tags, respectively, i.e., <think> reasoning process here </think><answer> answer here </answer>".
Proof. reflexivity. Qed.

Lemma make_conversation_Ok (r out : row) :
  make_conversation r = Ok out <->
  exists problem, r !! "problem" = Some problem /\
                  out = {[ "prompt" := conversation problem ]}.
Proof.
  unfold make_conversation, conversation.
  destruct (r !! "problem") as [problem|]; split.
  - intros [= <-]. eauto.
  - by intros (problem' & [= <-] & ->).
  - done.
  - by intros (problem' & [=] & _).
Qed.

Lemma make_conversation_Raise (r : row) e :
  make_conversation r = Raise e -> r !! "problem" = None /\ e = KeyError "problem".
Proof.
  unfold make_conversation. destruct (r !! "problem"); [done|]. by intros [= <-].
Qed.

(** The dictionary made for a text, or for [None], can be written. *)
Lemma infer_prompt problem :
  text_or_none problem ->
  arrow.infer (VDict {[ "prompt" := conversation problem ]}) = Some prompt_type.
Proof. intros [-> | [s ->]]; vm_compute; reflexivity. Qed.

Lemma column_prompts (outs : list row) :
  Forall (fun out : row =>
            exists problem, text_or_none problem /\
                            out = {[ "prompt" := conversation problem ]}) outs ->
  arrow.column (VDict <$> outs) = Some arrow.null \/
  arrow.column (VDict <$> outs) = Some prompt_type.
Proof.
  induction 1 as [|out outs (problem & Htext & ->) _ IH]; [by left|].
  right. rewrite fmap_cons. cbn [arrow.column]. rewrite (infer_prompt _ Htext).
  by destruct IH as [-> | ->].
Qed.

Lemma zip_with_union_prompts (rows : list row) : forall outs,
  Forall2 (fun r out => make_conversation r = Ok out) rows outs ->
  Forall2 (fun (r r' : row) =>
             exists problem, r !! "problem" = Some problem /\
                             r' = <["prompt" := conversation problem]> r)
          rows (zip_with (fun (out r : row) => out ∪ r) outs rows).
Proof.
  induction rows as [|r rows IH]; intros outs Hall;
    inversion Hall as [|? out ? outs' Hout Houts]; subst; simpl; constructor.
  - apply make_conversation_Ok in Hout as (problem & Hp & ->).
    exists problem. split; [done|]. symmetry. apply insert_union_singleton_l.
  - by apply IH.
Qed.

(** What the reformatting returns, when it returns. *)
Lemma Dataset_map_Ok rows rows' :
  Dataset_map make_conversation rows = Ok rows' ->
  Forall2 (fun (r r' : row) =>
             exists problem, r !! "problem" = Some problem /\
                             r' = <["prompt" := conversation problem]> r)
          rows rows'.
Proof.
  unfold Dataset_map.
  destruct (traverse make_conversation rows) as [outs|] eqn:Houts; [|done].
  destruct (arrow.column (VDict <$> outs)); [|done].
  intros [= <-]. apply traverse_Ok in Houts. by apply zip_with_union_prompts.
Qed.

(** It returns on the rows that have a problem which is a text or [None]. *)
Lemma Dataset_map_text rows :
  Forall (fun r : row => exists problem,
            r !! "problem" = Some problem /\ text_or_none problem) rows ->
  exists rows', Dataset_map make_conversation rows = Ok rows'.
Proof.
  intros Hrows. unfold Dataset_map.
  destruct (traverse_total make_conversation rows) as [outs Houts].
  { eapply Forall_impl; [exact Hrows|]. intros r (problem & Hp & _).
    eexists. apply make_conversation_Ok. eauto. }
  rewrite Houts. apply traverse_Ok in Houts.
  destruct (column_prompts outs) as [-> | ->]; [|eauto..].
  apply Forall_forall. intros out Hin.
  apply list_elem_of_lookup in Hin as [i Hi].
  destruct (Forall2_lookup_r _ _ _ _ _ Houts Hi) as (r & Hr & Hout).
  apply make_conversation_Ok in Hout as (problem & Hp & ->).
  eapply Forall_lookup_1 in Hrows as (problem' & Hp' & Htext); [|exact Hr].
  exists problem. split; [congruence|done].
Qed.

(** C5: a split whose examples all have a problem that is a text (or
    [None]) is reformatted example by example: every example gets as its
    prompt the list of exactly two messages, the system message with
    [SYSTEM_PROMPT], whose text is written out, then the user message with
    the example's own problem; its other fields stay as they were. *)
Theorem make_conversation_prompt (rows : list row) :
  Forall (fun r : row => exists problem,
            r !! "problem" = Some problem /\ text_or_none problem) rows ->
  SYSTEM_PROMPT =
  "A conversation between User and Assistant. The user asks a question, and the Assistant solves it. The assistant first thinks about the reasoning process in the mind and then provides the user with the answer. The reasoning process and answer are enclosed within <think> </think> and <answer> </answer> tags, respectively, i.e., <think> reasoning process here </think><answer> answer here </answer>" /\
  exists rows',
    Dataset_map make_conversation rows = Ok rows' /\
    length rows' = length rows /\
    forall i (example : row) problem,
      rows !! i = Some example ->
      example !! "problem" = Some problem ->
      exists example' : row,
        rows' !! i = Some example' /\
        example' !! "prompt" =
        Some (VList [ VDict {[ "role" := VStr "system"; "content" := VStr SYSTEM_PROMPT ]};
                      VDict {[ "role" := VStr "user"; "content" := problem ]} ]) /\
        forall key, key <> "prompt" -> example' !! key = example !! key.
Proof.
  intros Hrows. split; [reflexivity|].
  destruct (Dataset_map_text rows Hrows) as [rows' Hmap].
  exists rows'. split; [done|]. apply Dataset_map_Ok in Hmap.
  split; [symmetry; by eapply Forall2_length|].
  intros i example problem Hi Hp.
  destruct (Forall2_lookup_l _ _ _ _ _ Hmap Hi) as (example' & Hi' & problem' & Hp' & ->).
  rewrite Hp in Hp'. injection Hp' as <-.
  eexists. split; [exact Hi'|]. split.
  - apply lookup_insert_eq.
  - intros key Hkey. by apply lookup_insert_ne.
Qed.

Lemma make_conversation_prompt_witness :
  exists rows',
    Dataset_map make_conversation
      [ {[ "problem" := VStr "What is 2+2?"; "solution" := VStr "4" ]};
        {[ "problem" := VNone; "prompt" := VStr "old" ]} ] = Ok rows' /\
    (exists example' : row,
       rows' !! 1%nat = Some example' /\
       example' !! "prompt" =
       Some (VList [ VDict {[ "role" := VStr "system"; "content" := VStr SYSTEM_PROMPT ]};
                     VDict {[ "role" := VStr "user"; "content" := VNone ]} ])).
Proof.
  destruct (make_conversation_prompt
              [ {[ "problem" := VStr "What is 2+2?"; "solution" := VStr "4" ]};
                {[ "problem" := VNone; "prompt" := VStr "old" ]} ])
    as (_ & rows' & Hmap & _ & Hrows).
  - repeat (apply List.Forall_cons; [eexists; split; [reflexivity|]|]).
    + right. eauto.
    + by left.
    + apply List.Forall_nil.
  - exists rows'. split; [exact Hmap|].
    destruct (Hrows 1%nat {[ "problem" := VNone; "prompt" := VStr "old" ]} VNone)
      as (example' & Hi & Hprompt & _); [reflexivity..|].
    exists example'. split; [exact Hi|exact Hprompt].
Defined.

(** Every row of a dataset that [make_conversation] was mapped over has
    its prompt. *)
Lemma DatasetDict_map_prompts dataset dataset' :
  DatasetDict_map make_conversation dataset = Ok dataset' ->
  Forall2 (fun split split' =>
             split.1 = split'.1 /\
             Forall2 (fun (r r' : row) =>
                        exists problem,
                          r !! "problem" = Some problem /\
                          r' = <["prompt" := conversation problem]> r)
                     split.2 split'.2)
          dataset dataset'.
Proof.
  intros Hmap. apply traverse_Ok in Hmap.
  eapply Forall2_impl; [exact Hmap|].
  intros [name rows] [name' rows'] Hsplit. simpl.
  destruct (Dataset_map make_conversation rows) as [rows''|] eqn:Hrows; [|done].
  injection Hsplit as <- <-. split; [done|]. by apply Dataset_map_Ok.
Qed.

(** ** The registry *)

Lemma registry_getitem_accuracy : registry_getitem "accuracy" = Ok accuracy_reward_func.
Proof. reflexivity. Qed.

Lemma registry_getitem_format : registry_getitem "format" = Ok format_reward_func.
Proof. reflexivity. Qed.

(** * Further properties of the reward functions *)

Lemma traverse_app {A B} (f : A -> result B) l1 l2 :
  traverse f (l1 ++ l2) =
  match traverse f l1 with
  | Ok ys1 =>
      match traverse f l2 with
      | Ok ys2 => Ok (ys1 ++ ys2)
      | Raise e => Raise e
      end
  | Raise e => Raise e
  end.
Proof.
  induction l1 as [|x l1 IH]; simpl.
  - by destruct (traverse f l2).
  - destruct (f x); [|done]. rewrite IH.
    destruct (traverse f l1); [|done]. by destruct (traverse f l2).
Qed.

(** The first element on which [f] raises decides the comprehension. *)
Lemma traverse_first_Raise {A B} (f : A -> result B) before x after e :
  Forall (fun y => exists z, f y = Ok z) before ->
  f x = Raise e ->
  traverse f (before ++ x :: after) = Raise e.
Proof.
  intros Hbefore Hx. rewrite traverse_app.
  destruct (traverse_total f before Hbefore) as [ys ->]. simpl. by rewrite Hx.
Qed.

Lemma match_Ok_text content m :
  re.match_ format_pattern content = Ok m -> exists s, content = VStr s.
Proof.
  unfold re.match_. rewrite format_pattern_code. destruct content; try done. eauto.
Qed.

Lemma match_Raise_TypeError content e :
  re.match_ format_pattern content = Raise e -> e = TypeError.
Proof.
  unfold re.match_. rewrite format_pattern_code.
  destruct content; congruence.
Qed.

Lemma Some_1_0 : Some 1%float <> Some 0%float.
Proof.
  intros H. apply float_0_1. symmetry.
  exact (f_equal (from_option id 0%float) H).
Qed.

(** X1: [format_reward] returns a list exactly when the first message of
    every completion has a text as its content; otherwise it raises. *)
Theorem format_reward_returns_iff completions kwargs w :
  (exists rewards, (format_reward completions kwargs w).1 = Ok rewards) <->
  Forall has_text completions.
Proof.
  split.
  - intros [rewards Hrun]. rewrite format_reward_run in Hrun. simpl in Hrun.
    destruct (traverse first_content completions) as [contents|] eqn:Hc; [|done].
    destruct (traverse _ contents) as [ms|] eqn:Hm; [|done].
    apply traverse_Ok in Hc, Hm. apply Forall_forall. intros c Hin.
    apply list_elem_of_lookup in Hin as [i Hi].
    destruct (Forall2_lookup_l _ _ _ _ _ Hc Hi) as (content & Hci & Hcontent).
    destruct (Forall2_lookup_l _ _ _ _ _ Hm Hci) as (m & _ & Hmatch).
    apply match_Ok_text in Hmatch as [s ->]. by exists s.
  - intros Htext.
    destruct (format_reward_total completions kwargs w Htext) as (ms & -> & _). eauto.
Qed.

(** X2: among completions that all have a text, the reward is 1.0 exactly
    for the texts made of [<think>], a part without newline, [</think>]
    immediately followed by [<answer>], a part without newline,
    [</answer>], and at most one newline after it; it is 0.0 exactly for
    the others.  The two parts may be empty and may hold tags. *)
Theorem format_reward_accepts_exactly completions kwargs w :
  Forall has_text completions ->
  exists rewards,
    format_reward completions kwargs w = (Ok rewards, w) /\
    forall i completion s,
      completions !! i = Some completion ->
      first_content completion = Ok (VStr s) ->
      (rewards !! i = Some 1%float <-> well_formatted s) /\
      (rewards !! i = Some 0%float <-> ~ well_formatted s).
Proof.
  intros Htext.
  destruct (format_reward_total completions kwargs w Htext) as (ms & Hrun & Hall).
  exists (score <$> ms). split; [done|].
  intros i completion s Hi Hs.
  destruct (matched_lookup _ _ _ _ _ Hall Hi Hs) as (m & Hm & Hiff).
  rewrite list_lookup_fmap, Hm, <- format_matches_iff, <- Hiff. simpl.
  destruct m as [n|]; simpl.
  - split; split.
    + eauto.
    + done.
    + intros H. by apply Some_1_0 in H.
    + intros H. destruct H. eauto.
  - split; split.
    + intros H. symmetry in H. by apply Some_1_0 in H.
    + by intros [? ?].
    + by intros _ [? ?].
    + done.
Qed.

Lemma format_reward_accepts_exactly_witness :
  exists rewards,
    format_reward
      [assistant "<think></think><answer></answer>";
       assistant "<think>a</think> <answer>b</answer>";
       assistant "<think>a</think><answer><answer>b</answer></answer>"]
      ∅ empty_world = (Ok rewards, empty_world) /\
    rewards !! 0%nat = Some 1%float /\
    rewards !! 2%nat = Some 1%float.
Proof.
  destruct (format_reward_accepts_exactly
      [assistant "<think></think><answer></answer>";
       assistant "<think>a</think> <answer>b</answer>";
       assistant "<think>a</think><answer><answer>b</answer></answer>"]
      ∅ empty_world) as (rewards & Hrun & Hrewards).
  - repeat constructor; eexists; reflexivity.
  - exists rewards. split; [exact Hrun|]. split.
    + apply (Hrewards 0%nat (assistant "<think></think><answer></answer>") _
                      eq_refl eq_refl).
      exists "", "". repeat split. by left.
    + apply (Hrewards 2%nat
               (assistant "<think>a</think><answer><answer>b</answer></answer>") _
               eq_refl eq_refl).
      exists "a", "<answer>b</answer>". repeat split. by left.
Defined.

(** X3: among completions that all have a text, a text with a newline
    anywhere but at its very end gets 0.0, wherever the newline stands:
    inside a part, between [</think>] and [<answer>], before [<think>]. *)
Theorem format_reward_inner_newline completions kwargs w :
  Forall has_text completions ->
  exists rewards,
    format_reward completions kwargs w = (Ok rewards, w) /\
    forall i completion s before after,
      completions !! i = Some completion ->
      first_content completion = Ok (VStr s) ->
      s = before +:+ String re.newline after ->
      after <> "" ->
      rewards !! i = Some 0%float.
Proof.
  intros Htext.
  destruct (format_reward_total completions kwargs w Htext) as (ms & Hrun & Hall).
  exists (score <$> ms). split; [done|].
  intros i completion s before after Hi Hs Heq Hafter.
  destruct (matched_lookup _ _ _ _ _ Hall Hi Hs) as (m & Hm & Hiff).
  rewrite list_lookup_fmap, Hm. simpl. rewrite score_None; [done|].
  rewrite Hiff, format_matches_iff. intros Hwf.
  by apply (well_formatted_newline_last s before after) in Hwf.
Qed.

Lemma format_reward_inner_newline_witness :
  exists rewards,
    format_reward
      [assistant ("<think>a</think>" +:+ String re.newline "<answer>b</answer>")]
      ∅ empty_world = (Ok rewards, empty_world) /\
    rewards !! 0%nat = Some 0%float.
Proof.
  destruct (format_reward_inner_newline
      [assistant ("<think>a</think>" +:+ String re.newline "<answer>b</answer>")]
      ∅ empty_world) as (rewards & Hrun & Hrewards).
  - repeat constructor; eexists; reflexivity.
  - exists rewards. split; [exact Hrun|].
    apply (Hrewards 0%nat
             (assistant ("<think>a</think>" +:+ String re.newline "<answer>b</answer>"))
             _ "<think>a</think>" "<answer>b</answer>" eq_refl eq_refl eq_refl).
    discriminate.
Defined.

(** X4: scoring is done completion by completion: when [format_reward]
    returns on two batches, it returns on their concatenation, and the
    rewards are those of the first batch followed by those of the second. *)
Theorem format_reward_app completions1 completions2 kwargs w rewards1 rewards2 :
  (format_reward completions1 kwargs w).1 = Ok rewards1 ->
  (format_reward completions2 kwargs w).1 = Ok rewards2 ->
  format_reward (completions1 ++ completions2) kwargs w = (Ok (rewards1 ++ rewards2), w).
Proof.
  rewrite !format_reward_run. simpl. rewrite traverse_app.
  destruct (traverse first_content completions1) as [contents1|]; [|done].
  destruct (traverse first_content completions2) as [contents2|]; [|done].
  rewrite traverse_app.
  destruct (traverse _ contents1) as [ms1|]; [|done].
  destruct (traverse _ contents2) as [ms2|]; [|done].
  intros [= <-] [= <-]. by rewrite fmap_app.
Qed.

Lemma format_reward_app_witness :
  format_reward
    ([assistant "<think>a</think><answer>b</answer>"] ++ [assistant "b"; assistant ""])
    ∅ empty_world
  = (Ok ([1%float] ++ [0%float; 0%float]), empty_world).
Proof.
  apply (format_reward_app [assistant "<think>a</think><answer>b</answer>"]
                           [assistant "b"; assistant ""] ∅ empty_world).
  - reflexivity.
  - reflexivity.
Defined.

(** X5: [format_reward] reads the contents of all the completions before
    it matches any: the first completion without a first message or
    without a content decides the exception, even when a completion before
    it has a content that is not a text. *)
Theorem format_reward_missing_content before completion after e kwargs w :
  Forall has_content before ->
  first_content completion = Raise e ->
  format_reward (before ++ completion :: after) kwargs w = (Raise e, w).
Proof.
  intros Hbefore Hc. rewrite format_reward_run.
  by rewrite (traverse_first_Raise first_content before completion after e).
Qed.

Lemma format_reward_missing_content_witness :
  format_reward
    ([VList [VDict {[ "content" := VInt 3 ]}]] ++
     VList [] :: [assistant "<think>a</think><answer>b</answer>"])
    ∅ empty_world
  = (Raise IndexError, empty_world).
Proof.
  apply (format_reward_missing_content
           [VList [VDict {[ "content" := VInt 3 ]}]] (VList [])
           [assistant "<think>a</think><answer>b</answer>"] IndexError ∅ empty_world).
  - repeat constructor. eexists. reflexivity.
  - reflexivity.
Defined.

(** X6: when every completion has a content and one of them is not a
    text, [format_reward] raises [TypeError]. *)
Theorem format_reward_not_text completions kwargs w i completion content :
  Forall has_content completions ->
  completions !! i = Some completion ->
  first_content completion = Ok content ->
  (forall s, content <> VStr s) ->
  format_reward completions kwargs w = (Raise TypeError, w).
Proof.
  intros Hall Hi Hc Hnot. rewrite format_reward_run.
  destruct (traverse_total first_content completions Hall) as [contents Hcontents].
  rewrite Hcontents. apply traverse_Ok in Hcontents.
  destruct (Forall2_lookup_l _ _ _ _ _ Hcontents Hi) as (content' & Hci & Hc').
  rewrite Hc in Hc'. injection Hc' as <-.
  destruct (traverse (re.match_ format_pattern) contents) as [ms|e] eqn:Hm.
  - apply traverse_Ok in Hm.
    destruct (Forall2_lookup_l _ _ _ _ _ Hm Hci) as (m & _ & Hmatch).
    apply match_Ok_text in Hmatch as [s ->]. by destruct (Hnot s).
  - apply traverse_Raise in Hm as (x & _ & Hx).
    by apply match_Raise_TypeError in Hx as ->.
Qed.

Lemma format_reward_not_text_witness :
  format_reward
    [assistant "<think>a</think><answer>b</answer>"; VList [VDict {[ "content" := VNone ]}]]
    ∅ empty_world
  = (Raise TypeError, empty_world).
Proof.
  apply (format_reward_not_text
           [assistant "<think>a</think><answer>b</answer>";
            VList [VDict {[ "content" := VNone ]}]]
           ∅ empty_world 1%nat (VList [VDict {[ "content" := VNone ]}]) VNone).
  - repeat constructor; eexists; reflexivity.
  - reflexivity.
  - reflexivity.
  - discriminate.
Defined.

(** X7: a completion given as a plain text, not as a list of messages,
    makes both reward functions raise: [IndexError] for the empty text,
    [TypeError] for any other, whatever comes after it in the batch. *)
Theorem plain_text_completion_raises :
  forall (s : string) (rest : list value) kwargs w,
    let e := match s with "" => IndexError | _ => TypeError end in
    format_reward (VStr s :: rest) kwargs w = (Raise e, w) /\
    forall (parsed : Type)
           (parse : value -> list LatexExtractionConfig -> string -> list parsed)
           (verify : list parsed -> list parsed -> bool) solution,
      accuracy_reward parse verify (VStr s :: rest) solution kwargs w = (Raise e, w).
Proof.
  intros s rest kwargs w e.
  assert (first_content (VStr s) = Raise e) as Hs by (by destruct s).
  split.
  - rewrite format_reward_run. simpl. by rewrite Hs.
  - intros parsed parse verify solution.
    pose proof (accuracy_reward_run parse verify (VStr s :: rest) solution kwargs w)
      as Hrun.
    simpl in Hrun. by rewrite Hs in Hrun.
Qed.

Section accuracy_more.
Context {parsed : Type}.
Variable parse : value -> list LatexExtractionConfig -> string -> list parsed.
Variable verify : list parsed -> list parsed -> bool.

Lemma accuracy_reward_unfold completions solution kwargs w :
  accuracy_reward parse verify completions solution kwargs w =
  match traverse first_content completions with
  | Ok contents => accuracy_loop parse verify (zip contents solution) [] w
  | Raise e => (Raise e, w)
  end.
Proof.
  unfold accuracy_reward, bind. rewrite mapM_lift.
  by destruct (traverse first_content completions).
Qed.

(** The loop goes on where it stopped. *)
Lemma accuracy_loop_app pairs1 pairs2 : forall rewards w,
  accuracy_loop parse verify (pairs1 ++ pairs2) rewards w =
  match accuracy_loop parse verify pairs1 rewards w with
  | (Ok rewards1, w1) => accuracy_loop parse verify pairs2 rewards1 w1
  | (Raise e, w1) => (Raise e, w1)
  end.
Proof.
  induction pairs1 as [|[content sol] pairs1 IH]; intros rewards w; simpl; [done|].
  unfold bind. destruct (accuracy_of parse verify content sol w) as [[reward|e] w1];
    [apply IH|done].
Qed.

(** The rewards found so far are kept in front. *)
Lemma accuracy_loop_rewards pairs : forall rewards w,
  accuracy_loop parse verify pairs rewards w =
  match accuracy_loop parse verify pairs [] w with
  | (Ok rewards', w') => (Ok (rewards ++ rewards'), w')
  | (Raise e, w') => (Raise e, w')
  end.
Proof.
  induction pairs as [|[content sol] pairs IH]; intros rewards w; simpl.
  - unfold ret. by rewrite app_nil_r.
  - unfold bind.
    destruct (accuracy_of parse verify content sol w) as [[reward|e] w1]; [|done].
    rewrite (IH (rewards ++ [reward])), (IH ([] ++ [reward])).
    destruct (accuracy_loop parse verify pairs [] w1) as [[rewards'|e] w']; [|done].
    by rewrite <- app_assoc.
Qed.
End accuracy_more.

(** X8: [accuracy_reward] returns a list exactly when every completion has
    a first message with a content, whatever the solutions are and however
    many there are. *)
Theorem accuracy_reward_returns_iff {parsed : Type}
    (parse : value -> list LatexExtractionConfig -> string -> list parsed)
    (verify : list parsed -> list parsed -> bool) completions solution kwargs w :
  (exists rewards,
     (accuracy_reward parse verify completions solution kwargs w).1 = Ok rewards) <->
  Forall has_content completions.
Proof.
  pose proof (accuracy_reward_run parse verify completions solution kwargs w) as Hrun.
  split.
  - intros [rewards Hok].
    destruct (traverse first_content completions) as [contents|e] eqn:Hc.
    + apply traverse_Ok in Hc. apply Forall_forall. intros c Hin.
      apply list_elem_of_lookup in Hin as [i Hi].
      destruct (Forall2_lookup_l _ _ _ _ _ Hc Hi) as (content & _ & Hcontent).
      by exists content.
    + by rewrite Hrun in Hok.
  - intros Hall. destruct (traverse_total first_content completions Hall) as [contents Hc].
    rewrite Hc in Hrun. destruct Hrun as (rewards & -> & _). eauto.
Qed.

(** X9: [accuracy_reward] reads the contents of all the completions before
    it looks at any solution: a completion without a first message or
    without a content makes it raise, with nothing printed, even when the
    completion has no solution to be paired with. *)
Theorem accuracy_reward_missing_content {parsed : Type}
    (parse : value -> list LatexExtractionConfig -> string -> list parsed)
    (verify : list parsed -> list parsed -> bool)
    before completion after e solution kwargs w :
  Forall has_content before ->
  first_content completion = Raise e ->
  accuracy_reward parse verify (before ++ completion :: after) solution kwargs w
  = (Raise e, w).
Proof.
  intros Hbefore Hc. rewrite accuracy_reward_unfold.
  by rewrite (traverse_first_Raise first_content before completion after e).
Qed.

Lemma accuracy_reward_missing_content_witness :
  accuracy_reward sample_parse sample_verify
    ([assistant "4"] ++ VList [VDict {[ "role" := VStr "assistant" ]}] :: [])
    [VStr "unknown"] ∅ empty_world
  = (Raise (KeyError "content"), empty_world).
Proof.
  apply (accuracy_reward_missing_content sample_parse sample_verify
           [assistant "4"] (VList [VDict {[ "role" := VStr "assistant" ]}]) []
           (KeyError "content") [VStr "unknown"] ∅ empty_world).
  - repeat constructor. eexists. reflexivity.
  - reflexivity.
Defined.

(** X10: [accuracy_reward] scores pair by pair: a batch made of two
    batches, the first with as many solutions as completions, gets the
    rewards of the first followed by those of the second, and prints what
    the first prints followed by what the second prints. *)
Theorem accuracy_reward_app {parsed : Type}
    (parse : value -> list LatexExtractionConfig -> string -> list parsed)
    (verify : list parsed -> list parsed -> bool)
    completions1 completions2 solution1 solution2 kwargs w rewards1 w1 rewards2 w2 :
  length completions1 = length solution1 ->
  accuracy_reward parse verify completions1 solution1 kwargs w = (Ok rewards1, w1) ->
  accuracy_reward parse verify completions2 solution2 kwargs w1 = (Ok rewards2, w2) ->
  accuracy_reward parse verify (completions1 ++ completions2) (solution1 ++ solution2)
                  kwargs w
  = (Ok (rewards1 ++ rewards2), w2).
Proof.
  intros Hlen. rewrite !accuracy_reward_unfold, traverse_app.
  destruct (traverse first_content completions1) as [contents1|] eqn:Hc1; [|done].
  destruct (traverse first_content completions2) as [contents2|]; [|done].
  apply traverse_Ok, Forall2_length in Hc1.
  intros H1 H2.
  rewrite zip_with_app by congruence.
  rewrite accuracy_loop_app, H1, accuracy_loop_rewards, H2. done.
Qed.

Lemma accuracy_reward_app_witness :
  accuracy_reward sample_parse sample_verify
    ([assistant "4"] ++ [assistant "5"]) ([VStr "unknown"] ++ [VStr "6"; VStr "7"])
    ∅ empty_world
  = (Ok ([1%float] ++ [0%float]), mkWorld [failure_line (VStr "unknown")] []).
Proof.
  apply (accuracy_reward_app sample_parse sample_verify
           [assistant "4"] [assistant "5"] [VStr "unknown"] [VStr "6"; VStr "7"]
           ∅ empty_world [1%float] (mkWorld [failure_line (VStr "unknown")] [])).
  - reflexivity.
  - reflexivity.
  - reflexivity.
Defined.

(** X11: [accuracy_reward] looks at nothing but the content of the first
    message of each completion: two batches whose first messages have the
    same contents, one by one, get the same rewards and the same printed
    lines for the same solutions, whatever other messages, other fields and
    keyword arguments there are. *)
Theorem accuracy_reward_first_message_only {parsed : Type}
    (parse : value -> list LatexExtractionConfig -> string -> list parsed)
    (verify : list parsed -> list parsed -> bool)
    completions1 completions2 solution kwargs1 kwargs2 w :
  Forall2 (fun c1 c2 => first_content c1 = first_content c2) completions1 completions2 ->
  accuracy_reward parse verify completions1 solution kwargs1 w =
  accuracy_reward parse verify completions2 solution kwargs2 w.
Proof.
  intros Hsame. rewrite !accuracy_reward_unfold.
  by rewrite (traverse_ext first_content first_content _ _ Hsame).
Qed.

Lemma accuracy_reward_first_message_only_witness :
  accuracy_reward sample_parse sample_verify
    [VList [VDict {[ "content" := VStr "4" ]}; VDict {[ "content" := VStr "5" ]}]]
    [VStr "4"] ∅ empty_world =
  accuracy_reward sample_parse sample_verify
    [assistant "4"] [VStr "4"] {[ "prompts" := VList [] ]} empty_world.
Proof.
  apply (accuracy_reward_first_message_only sample_parse sample_verify).
  repeat constructor.
Defined.

(** * Further properties of the reformatting *)

Lemma Dataset_map_Raise rows e :
  Dataset_map make_conversation rows = Raise e ->
  e = KeyError "problem" \/ e = ArrowInvalid.
Proof.
  unfold Dataset_map.
  destruct (traverse make_conversation rows) as [outs|e'] eqn:Houts.
  - destruct (arrow.column (VDict <$> outs)); [done|]. intros [= <-]. by right.
  - intros [= <-]. apply traverse_Raise in Houts as (r & _ & Hr).
    apply make_conversation_Raise in Hr as [_ ->]. by left.
Qed.

(** A row without a problem stops the reformatting of its split. *)
Lemma Dataset_map_row_without_problem rows (example : row) :
  example ∈ rows -> example !! "problem" = None ->
  Dataset_map make_conversation rows = Raise (KeyError "problem").
Proof.
  intros Hrow Hnone. unfold Dataset_map.
  destruct (traverse make_conversation rows) as [outs|e] eqn:Houts.
  - exfalso. apply traverse_Ok in Houts.
    apply list_elem_of_lookup in Hrow as [i Hi].
    destruct (Forall2_lookup_l _ _ _ _ _ Houts Hi) as (out & _ & Hout).
    apply make_conversation_Ok in Hout as (problem & Hp & _). congruence.
  - apply traverse_Raise in Houts as (r & _ & Hr).
    by apply make_conversation_Raise in Hr as [_ ->].
Qed.

(** In a dataset whose problems are texts, a split is reformatted unless
    one of its rows has no problem. *)
Lemma Dataset_map_text_problems rows :
  Forall (fun r : row => forall problem,
            r !! "problem" = Some problem -> text_or_none problem) rows ->
  (exists rows', Dataset_map make_conversation rows = Ok rows') \/
  Dataset_map make_conversation rows = Raise (KeyError "problem").
Proof.
  intros Htext.
  destruct (decide (Forall (fun r : row => is_Some (r !! "problem")) rows)) as [Hall|Hnot].
  - left. apply Dataset_map_text. apply Forall_forall. intros r Hr.
    eapply Forall_forall in Hall as [problem Hp]; [|exact Hr].
    eapply Forall_forall in Htext; [|exact Hr]. eauto.
  - right. apply not_Forall_Exists in Hnot; [|apply _].
    apply Exists_exists in Hnot as (r & Hr & Hnone).
    apply (Dataset_map_row_without_problem rows r Hr).
    by apply eq_None_not_Some.
Qed.

(** A row without a problem, in any split of a dataset whose problems are
    texts, stops the reformatting. *)
Lemma DatasetDict_map_row_without_problem (dataset : DatasetDict) name rows (example : row) :
  text_problems dataset ->
  (name, rows) ∈ dataset -> example ∈ rows -> example !! "problem" = None ->
  DatasetDict_map make_conversation dataset = Raise (KeyError "problem").
Proof.
  intros Htext Hsplit Hrow Hnone. unfold DatasetDict_map.
  induction Htext as [|[name' rows'] dataset Hrows' Htext IH];
    [by apply elem_of_nil in Hsplit|].
  simpl in Hrows'. simpl.
  destruct (Dataset_map_text_problems rows' Hrows') as [[rows'' Hmap] | Hmap];
    rewrite Hmap; [|done].
  apply elem_of_cons in Hsplit as [[= <- <-]|Hsplit].
  - by rewrite (Dataset_map_row_without_problem rows example) in Hmap.
  - by rewrite (IH Hsplit).
Qed.

(** Without that, the reformatting may stop on another exception first. *)
Lemma DatasetDict_map_number_first :
  DatasetDict_map make_conversation
    [("train", [ {[ "problem" := VInt 3 ]} ]);
     ("test", [ {[ "question" := VStr "What is 3+3?" ]} ])]
  = Raise ArrowInvalid.
Proof. vm_compute. reflexivity. Qed.

(** X12: an example without a problem makes [make_conversation] raise
    [KeyError] for "problem", and one such row anywhere in a dataset whose
    problems are texts makes the reformatting of the whole dataset raise
    it: no split is reformatted in part. *)
Theorem make_conversation_missing_problem (example : row) :
  example !! "problem" = None ->
  make_conversation example = Raise (KeyError "problem") /\
  forall (dataset : DatasetDict) name rows,
    text_problems dataset ->
    (name, rows) ∈ dataset -> example ∈ rows ->
    DatasetDict_map make_conversation dataset = Raise (KeyError "problem").
Proof.
  intros Hnone. split.
  - unfold make_conversation. by rewrite Hnone.
  - intros dataset name rows Htext Hsplit Hrow.
    by apply (DatasetDict_map_row_without_problem dataset name rows example).
Qed.

Lemma make_conversation_missing_problem_witness :
  DatasetDict_map make_conversation
    [("train", [ {[ "problem" := VStr "What is 2+2?" ]} ]);
     ("test", [ {[ "question" := VStr "What is 3+3?" ]} ])]
  = Raise (KeyError "problem").
Proof.
  destruct (make_conversation_missing_problem {[ "question" := VStr "What is 3+3?" ]})
    as [_ Hmap]; [reflexivity|].
  apply (Hmap _ "test" [ {[ "question" := VStr "What is 3+3?" ]} ]).
  - apply List.Forall_cons; [|apply List.Forall_cons; [|apply List.Forall_nil]];
      (apply List.Forall_cons; [|apply List.Forall_nil]); intros problem Hp;
      vm_compute in Hp.
    + injection Hp as <-. right. eauto.
    + discriminate Hp.
  - apply elem_of_cons. right. apply elem_of_cons. by left.
  - apply elem_of_cons. by left.
Defined.

Lemma traverse_fixed {A} (f : A -> result A) l :
  Forall (fun x => f x = Ok x) l -> traverse f l = Ok l.
Proof. induction 1 as [|x l Hx _ IH]; simpl; [done|]. by rewrite Hx, IH. Qed.

Lemma zip_with_union_fixed (outs rows : list row) :
  zip_with (fun (out r : row) => out ∪ r) outs
           (zip_with (fun (out r : row) => out ∪ r) outs rows)
  = zip_with (fun (out r : row) => out ∪ r) outs rows.
Proof.
  revert rows. induction outs as [|out outs IH]; intros [|r rows]; simpl; [done..|].
  by rewrite IH, (assoc_L (∪)), (idemp_L (∪)).
Qed.

(** A split that was reformatted is reformatted into itself. *)
Lemma Dataset_map_fixed rows rows' :
  Dataset_map make_conversation rows = Ok rows' ->
  Dataset_map make_conversation rows' = Ok rows'.
Proof.
  unfold Dataset_map.
  destruct (traverse make_conversation rows) as [outs|] eqn:Houts; [|done].
  destruct (arrow.column (VDict <$> outs)) as [t|] eqn:Ht; [|done].
  intros [= <-].
  assert (traverse make_conversation
            (zip_with (fun (out r : row) => out ∪ r) outs rows) = Ok outs) as ->.
  { apply traverse_Ok in Houts. apply traverse_Ok.
    clear Ht. induction Houts as [|r out rows outs Hout _ IH]; simpl; constructor;
      [|done].
    apply make_conversation_Ok in Hout as (problem & Hp & ->).
    apply make_conversation_Ok. exists problem. split; [|done].
    rewrite <- insert_union_singleton_l. by rewrite lookup_insert_ne. }
  by rewrite Ht, zip_with_union_fixed.
Qed.

(** X13: reformatting a dataset that was reformatted changes nothing: the
    prompt is made from the problem alone, and the problem is kept. *)
Theorem DatasetDict_map_idempotent (dataset dataset' : DatasetDict) :
  DatasetDict_map make_conversation dataset = Ok dataset' ->
  DatasetDict_map make_conversation dataset' = Ok dataset'.
Proof.
  intros Hmap. apply traverse_Ok in Hmap. apply traverse_fixed.
  apply Forall_forall. intros [name' rows'] Hin.
  apply list_elem_of_lookup in Hin as [i Hi].
  destruct (Forall2_lookup_r _ _ _ _ _ Hmap Hi) as ([name rows] & _ & Hsplit).
  destruct (Dataset_map make_conversation rows) as [rows''|] eqn:Hrows; [|done].
  injection Hsplit as <- <-.
  by rewrite (Dataset_map_fixed rows rows'').
Qed.

Lemma DatasetDict_map_idempotent_witness :
  DatasetDict_map make_conversation
    [("train", [ <["prompt" := conversation (VStr "What is 2+2?")]>
                   {[ "problem" := VStr "What is 2+2?"; "prompt" := VStr "old" ]} ])]
  = Ok [("train", [ <["prompt" := conversation (VStr "What is 2+2?")]>
                      {[ "problem" := VStr "What is 2+2?"; "prompt" := VStr "old" ]} ])].
Proof.
  apply (DatasetDict_map_idempotent
           [("train", [ {[ "problem" := VStr "What is 2+2?"; "prompt" := VStr "old" ]} ])]).
  reflexivity.
Defined.

(** The reformatting keeps the names of the splits, in order. *)
Lemma DatasetDict_map_names (dataset dataset' : DatasetDict) :
  DatasetDict_map make_conversation dataset = Ok dataset' ->
  dataset'.*1 = dataset.*1.
Proof.
  intros Hmap. apply DatasetDict_map_prompts in Hmap.
  induction Hmap as [|[name rows] [name' rows'] dataset dataset' [Hname _] _ IH];
    [done|].
  simpl in Hname. subst name'. by rewrite !fmap_cons, IH.
Qed.

(** X14: the reformatting keeps the splits, their names and their order,
    the number and the order of the rows of each split, and every field of
    every row but the prompt: the solution that [accuracy_reward] needs is
    still there. *)
Theorem DatasetDict_map_preserves (dataset dataset' : DatasetDict) :
  DatasetDict_map make_conversation dataset = Ok dataset' ->
  dataset'.*1 = dataset.*1 /\
  Forall2 (fun split split' =>
             length split'.2 = length split.2 /\
             Forall2 (fun (r r' : row) =>
                        forall key, key <> "prompt" -> r' !! key = r !! key)
                     split.2 split'.2)
          dataset dataset'.
Proof.
  intros Hmap. split; [by apply DatasetDict_map_names|].
  apply DatasetDict_map_prompts in Hmap.
  eapply Forall2_impl; [exact Hmap|].
  intros [name rows] [name' rows'] [_ Hrows]. simpl in *.
  split; [symmetry; by eapply Forall2_length|].
  eapply Forall2_impl; [exact Hrows|].
  intros r r' (problem & _ & ->) key Hkey. by rewrite lookup_insert_ne.
Qed.

Lemma DatasetDict_map_preserves_witness :
  exists dataset',
    DatasetDict_map make_conversation
      [("train", [ {[ "problem" := VStr "What is 2+2?"; "solution" := VStr "4" ]} ]);
       ("test", [])] = Ok dataset' /\
    dataset'.*1 = ["train"; "test"].
Proof.
  eexists. split; [reflexivity|].
  apply (DatasetDict_map_preserves
           [("train", [ {[ "problem" := VStr "What is 2+2?"; "solution" := VStr "4" ]} ]);
            ("test", [])]).
  reflexivity.
Defined.

(** * Further properties of [main] *)

Lemma DatasetDict_getitem_map (f : row -> result row) (dataset : DatasetDict) split :
  forall dataset',
    DatasetDict_map f dataset = Ok dataset' ->
    DatasetDict_getitem dataset' split =
    match DatasetDict_getitem dataset split with
    | Ok rows => Dataset_map f rows
    | Raise e => Raise e
    end.
Proof.
  induction dataset as [|[name rows] dataset IH]; intros dataset' Hmap.
  - by injection Hmap as <-.
  - unfold DatasetDict_map in Hmap. simpl in Hmap.
    destruct (Dataset_map f rows) as [rows'|] eqn:Hrows; [|done].
    destruct (traverse _ dataset) as [rest|] eqn:Hrest; [|done].
    injection Hmap as <-. simpl.
    destruct (String.eqb name split); [done|]. by apply IH.
Qed.

Lemma DatasetDict_getitem_missing (dataset : DatasetDict) split :
  split ∉ dataset.*1 -> DatasetDict_getitem dataset split = Raise (KeyError split).
Proof.
  induction dataset as [|[name rows] dataset IH]; intros Hnot; simpl; [done|].
  rewrite fmap_cons, not_elem_of_cons in Hnot. destruct Hnot as [Hne Hnot].
  destruct (String.eqb_spec name split) as [->|_]; [done|]. by apply IH.
Qed.

Lemma DatasetDict_getitem_present (dataset : DatasetDict) split :
  split ∈ dataset.*1 -> exists rows, DatasetDict_getitem dataset split = Ok rows.
Proof.
  induction dataset as [|[name rows] dataset IH]; intros Hin; simpl.
  - by apply elem_of_nil in Hin.
  - rewrite fmap_cons, elem_of_cons in Hin.
    destruct (String.eqb_spec name split) as [->|Hne]; [eauto|].
    destruct Hin as [->|Hin]; [done|]. by apply IH.
Qed.

Lemma DatasetDict_map_total (dataset : DatasetDict) :
  Forall (fun split : string * list row =>
            Forall (fun r : row => exists problem,
                      r !! "problem" = Some problem /\ text_or_none problem) split.2)
         dataset ->
  exists dataset', DatasetDict_map make_conversation dataset = Ok dataset'.
Proof.
  intros Hall. apply traverse_total. eapply Forall_impl; [exact Hall|].
  intros [name rows] Hrows. destruct (Dataset_map_text rows Hrows) as [rows' ->]. eauto.
Qed.

Section main_more.
Context {trainer : Type}.
Variable load_dataset : value -> result DatasetDict.
Variable GRPOTrainer :
  value -> list reward_func -> list row -> list row -> result trainer.
Variable train : trainer -> result trainer.
Variable save_model : trainer -> value -> result unit.
Variables compiled_model_path dataset_name model_output_dir : value.
Variable reward_types : list string.
Variable training_args : value.

#[local] Abbreviation run w :=
  (main load_dataset GRPOTrainer train save_model
        compiled_model_path dataset_name model_output_dir reward_types training_args w).

#[local] Abbreviation after n w reward_funcs dataset train_dataset eval_dataset :=
  (mkWorld (stdout w)
           (calls w ++
            take n (pipeline compiled_model_path dataset_name model_output_dir
                             reward_funcs dataset train_dataset eval_dataset))).

(** The run of [main], step by step. *)
Lemma main_unfold w :
  run w =
  match traverse registry_getitem reward_types with
  | Raise e => (Raise e, w)
  | Ok reward_funcs =>
      match load_dataset dataset_name with
      | Raise e => (Raise e, after 1 w reward_funcs [] [] [])
      | Ok dataset =>
          match DatasetDict_map make_conversation dataset with
          | Raise e => (Raise e, after 2 w reward_funcs dataset [] [])
          | Ok dataset' =>
              match DatasetDict_getitem dataset' "train" with
              | Raise e => (Raise e, after 2 w reward_funcs dataset [] [])
              | Ok train_dataset =>
                  match DatasetDict_getitem dataset' "test" with
                  | Raise e => (Raise e, after 2 w reward_funcs dataset [] [])
                  | Ok eval_dataset =>
                      match GRPOTrainer compiled_model_path reward_funcs
                                        train_dataset eval_dataset with
                      | Raise e =>
                          (Raise e, after 3 w reward_funcs dataset train_dataset eval_dataset)
                      | Ok t =>
                          match train t with
                          | Raise e =>
                              (Raise e,
                               after 4 w reward_funcs dataset train_dataset eval_dataset)
                          | Ok t' =>
                              (save_model t' model_output_dir,
                               after 6 w reward_funcs dataset train_dataset eval_dataset)
                          end
                      end
                  end
              end
          end
      end
  end.
Proof.
  unfold main, bind. rewrite mapM_lift.
  destruct (traverse registry_getitem reward_types) as [reward_funcs|e]; [|done].
  unfold emit, lift. simpl.
  destruct (load_dataset dataset_name) as [dataset|e]; [|done].
  destruct (DatasetDict_map make_conversation dataset) as [dataset'|e];
    [|by rewrite <- app_assoc].
  destruct (DatasetDict_getitem dataset' "train") as [train_dataset|e];
    [|by rewrite <- app_assoc].
  destruct (DatasetDict_getitem dataset' "test") as [eval_dataset|e];
    [|by rewrite <- app_assoc].
  simpl.
  destruct (GRPOTrainer compiled_model_path reward_funcs train_dataset eval_dataset)
    as [t|e]; [|by rewrite <- !app_assoc].
  destruct (train t) as [t'|e]; [|by rewrite <- !app_assoc].
  rewrite <- !app_assoc. by destruct (save_model t' model_output_dir).
Qed.
End main_more.

(** C4: [main] goes through its stages in one order.  The calls it makes
    into the libraries are a beginning of the pipeline: load, reformat,
    build the trainer, train, save.  Each stage is performed as soon as
    the ones before it have returned: the dataset that was loaded is the
    one reformatted, the splits of the reformatted dataset are handed to
    the trainer, the trainer that was built is trained, and the model is
    saved once [train] has returned.  No stage comes earlier: the trainer
    is built only on a dataset that was loaded and reformatted, training
    starts only on a trainer that was built, and [save_model] is called
    only after [train] has returned on that trainer. *)
Theorem main_stage_order {trainer : Type}
    (load_dataset : value -> result DatasetDict)
    (GRPOTrainer : value -> list reward_func -> list row -> list row -> result trainer)
    (train : trainer -> result trainer)
    (save_model : trainer -> value -> result unit)
    (compiled_model_path dataset_name model_output_dir : value)
    (reward_types : list string) (training_args : value) (w : World) :
  let run := main load_dataset GRPOTrainer train save_model compiled_model_path
                  dataset_name model_output_dir reward_types training_args w in
  exists trace,
    run.2 = mkWorld (stdout w) (calls w ++ trace) /\
    (exists n, n <= 6 /\ stage <$> trace = seq 0 n) /\
    (forall reward_funcs,
       traverse registry_getitem reward_types = Ok reward_funcs ->
       trace !! 0%nat = Some (load_dataset_call dataset_name) /\
       forall dataset,
         load_dataset dataset_name = Ok dataset ->
         trace !! 1%nat = Some (dataset_map_call dataset) /\
         forall dataset' train_dataset eval_dataset,
           DatasetDict_map make_conversation dataset = Ok dataset' ->
           DatasetDict_getitem dataset' "train" = Ok train_dataset ->
           DatasetDict_getitem dataset' "test" = Ok eval_dataset ->
           trace !! 2%nat =
           Some (GRPOTrainer_call compiled_model_path reward_funcs
                                  train_dataset eval_dataset) /\
           forall t,
             GRPOTrainer compiled_model_path reward_funcs train_dataset eval_dataset
             = Ok t ->
             trace !! 3%nat = Some train_call /\
             forall t',
               train t = Ok t' ->
               trace !! 4%nat = Some train_return /\
               trace !! 5%nat = Some (save_model_call model_output_dir) /\
               run.1 = save_model t' model_output_dir) /\
    (forall dataset,
       dataset_map_call dataset ∈ trace ->
       load_dataset dataset_name = Ok dataset) /\
    (forall model reward_funcs train_dataset eval_dataset,
       GRPOTrainer_call model reward_funcs train_dataset eval_dataset ∈ trace ->
       model = compiled_model_path /\
       exists dataset dataset',
         dataset_map_call dataset ∈ trace /\
         DatasetDict_map make_conversation dataset = Ok dataset' /\
         DatasetDict_getitem dataset' "train" = Ok train_dataset /\
         DatasetDict_getitem dataset' "test" = Ok eval_dataset) /\
    (train_call ∈ trace ->
     exists reward_funcs train_dataset eval_dataset t,
       trace !! 2%nat =
       Some (GRPOTrainer_call compiled_model_path reward_funcs
                              train_dataset eval_dataset) /\
       GRPOTrainer compiled_model_path reward_funcs train_dataset eval_dataset = Ok t) /\
    (forall output_dir,
       save_model_call output_dir ∈ trace ->
       output_dir = model_output_dir /\
       trace !! 4%nat = Some train_return /\
       trace !! 5%nat = Some (save_model_call output_dir) /\
       exists reward_funcs train_dataset eval_dataset t t',
         trace !! 2%nat =
         Some (GRPOTrainer_call compiled_model_path reward_funcs
                                train_dataset eval_dataset) /\
         GRPOTrainer compiled_model_path reward_funcs train_dataset eval_dataset = Ok t /\
         train t = Ok t').
Proof.
  cbv zeta. rewrite main_unfold.
  destruct (traverse registry_getitem reward_types) as [rf|e0] eqn:Hrf.
  2:{ exists []. rewrite app_nil_r, world_eta. split; [done|].
      split; [exists 0; split; [lia|reflexivity]|]. split; [stages|].
      repeat split; intros; elem_cases H. }
  destruct (load_dataset dataset_name) as [ds|e0] eqn:Hload.
  2:{ eexists. split; [reflexivity|].
      split; [exists 1; split; [lia|reflexivity]|]. split; [stages|].
      repeat split; intros; elem_cases H. }
  destruct (DatasetDict_map make_conversation ds) as [ds'|e0] eqn:Hmap.
  2:{ eexists. split; [reflexivity|].
      split; [exists 2; split; [lia|reflexivity]|]. split; [stages|].
      split; [intros ? H; elem_cases H; congruence|].
      repeat split; intros; elem_cases H. }
  destruct (DatasetDict_getitem ds' "train") as [td|e0] eqn:Htd.
  2:{ eexists. split; [reflexivity|].
      split; [exists 2; split; [lia|reflexivity]|]. split; [stages|].
      split; [intros ? H; elem_cases H; congruence|].
      repeat split; intros; elem_cases H. }
  destruct (DatasetDict_getitem ds' "test") as [ed|e0] eqn:Hed.
  2:{ eexists. split; [reflexivity|].
      split; [exists 2; split; [lia|reflexivity]|]. split; [stages|].
      split; [intros ? H; elem_cases H; congruence|].
      repeat split; intros; elem_cases H. }
  destruct (GRPOTrainer compiled_model_path rf td ed) as [t|e0] eqn:Ht.
  2:{ eexists. split; [reflexivity|].
      split; [exists 3; split; [lia|reflexivity]|]. split; [stages|].
      split; [intros ? H; elem_cases H; congruence|].
      split; [intros ???? H; elem_cases H; injection H as -> -> -> ->;
          split; [done|]; exists ds, ds'; split; [|done];
          apply list_elem_of_lookup; by exists 1|].
      split; [intros H|intros ? H]; elem_cases H. }
  destruct (train t) as [t'|e0] eqn:Ht'.
  2:{ eexists. split; [reflexivity|].
      split; [exists 4; split; [lia|reflexivity]|]. split; [stages|].
      split; [intros ? H; elem_cases H; congruence|].
      split; [intros ???? H; elem_cases H; injection H as -> -> -> ->;
          split; [done|]; exists ds, ds'; split; [|done];
          apply list_elem_of_lookup; by exists 1|].
      split; [intros _; by exists rf, td, ed, t|intros ? H; elem_cases H]. }
  eexists. split; [reflexivity|].
  split; [exists 6; split; [lia|reflexivity]|]. split; [stages|].
  split; [intros ? H; elem_cases H; congruence|].
  split; [intros ???? H; elem_cases H; injection H as -> -> -> ->;
          split; [done|]; exists ds, ds'; split; [|done];
          apply list_elem_of_lookup; by exists 1|].
  split; [intros _; by exists rf, td, ed, t|].
  intros ? H. elem_cases H. injection H as ->.
  repeat split; try done. by exists rf, td, ed, t, t'.
Qed.

Lemma main_stage_order_witness :
  calls (main (trainer := nat)
           (fun _ => Ok [("train", [ {[ "problem" := VStr "What is 2+2?" ]} ]); ("test", [])])
           (fun _ _ _ _ => Ok 0%nat) (fun t => Ok (S t)) (fun _ _ => Ok tt)
           (VStr "model") (VStr "data") (VStr "out") ["accuracy"; "format"] VNone
           empty_world).2 !! 5%nat
  = Some (save_model_call (VStr "out")).
Proof.
  destruct (main_stage_order (trainer := nat)
           (fun _ => Ok [("train", [ {[ "problem" := VStr "What is 2+2?" ]} ]); ("test", [])])
           (fun _ _ _ _ => Ok 0%nat) (fun t => Ok (S t)) (fun _ _ => Ok tt)
           (VStr "model") (VStr "data") (VStr "out") ["accuracy"; "format"] VNone
           empty_world) as (trace & Hrun & _ & Hperforms & _).
  rewrite Hrun. simpl.
  destruct (Hperforms [accuracy_reward_func; format_reward_func] eq_refl) as [_ Hload].
  destruct (Hload _ eq_refl) as [_ Hmap].
  edestruct Hmap as [_ Hinit]; [reflexivity..|].
  destruct (Hinit _ eq_refl) as [_ Htrain].
  destruct (Htrain _ eq_refl) as (_ & Hsave & _).
  exact Hsave.
Defined.

(** C6: the registry has the two keys "accuracy" and "format" and no
    other, bound to two different functions: the one bound to "accuracy"
    runs [accuracy_reward], the one bound to "format" runs
    [format_reward].  For reward types taken among these keys, [main] does
    not stop on the selection: it goes on to load the dataset, and when it
    builds the trainer it hands it the functions of the reward types, as
    many and in the same order. *)
Theorem reward_funcs_selection :
  (dom reward_funcs_registry = {[ "accuracy"; "format" ]} /\
   reward_funcs_registry !! "accuracy" = Some accuracy_reward_func /\
   reward_funcs_registry !! "format" = Some format_reward_func /\
   accuracy_reward_func <> format_reward_func) /\
  (forall (parsed : Type)
          (parse : value -> list LatexExtractionConfig -> string -> list parsed)
          (verify : list parsed -> list parsed -> bool)
          completions solution kwargs,
     call_reward_func parse verify accuracy_reward_func completions solution kwargs
     = accuracy_reward parse verify completions solution kwargs /\
     call_reward_func parse verify format_reward_func completions solution kwargs
     = format_reward completions (<["solution" := VList solution]> kwargs)) /\
  (forall reward_types,
     Forall (fun type => type = "accuracy" \/ type = "format") reward_types ->
     exists reward_funcs,
       length reward_funcs = length reward_types /\
       (forall i,
          (reward_types !! i = Some "accuracy" ->
           reward_funcs !! i = Some accuracy_reward_func) /\
          (reward_types !! i = Some "format" ->
           reward_funcs !! i = Some format_reward_func)) /\
       forall (trainer : Type) load_dataset
              (GRPOTrainer : value -> list reward_func -> list row -> list row
                             -> result trainer)
              train save_model model dataset_name output_dir training_args w,
       exists trace,
         (main load_dataset GRPOTrainer train save_model model dataset_name
               output_dir reward_types training_args w).2
         = mkWorld (stdout w) (calls w ++ trace) /\
         trace !! 0%nat = Some (load_dataset_call dataset_name) /\
         (forall dataset dataset' train_dataset eval_dataset,
            load_dataset dataset_name = Ok dataset ->
            DatasetDict_map make_conversation dataset = Ok dataset' ->
            DatasetDict_getitem dataset' "train" = Ok train_dataset ->
            DatasetDict_getitem dataset' "test" = Ok eval_dataset ->
            trace !! 2%nat =
            Some (GRPOTrainer_call model reward_funcs train_dataset eval_dataset)) /\
         (forall model' reward_funcs' train_dataset eval_dataset,
            GRPOTrainer_call model' reward_funcs' train_dataset eval_dataset ∈ trace ->
            reward_funcs' = reward_funcs)).
Proof.
  split; [|split].
  - split; [|done]. unfold reward_funcs_registry.
    by rewrite dom_insert_L, dom_singleton_L.
  - done.
  - intros reward_types Htypes.
    destruct (traverse_total registry_getitem reward_types) as [reward_funcs Hrf].
    { eapply Forall_impl; [exact Htypes|].
      intros type [-> | ->]; eexists; reflexivity. }
    exists reward_funcs.
    pose proof Hrf as Hall. apply traverse_Ok in Hall.
    split; [symmetry; by eapply Forall2_length|]. split.
    + intros i. split; intros Hi;
        destruct (Forall2_lookup_l _ _ _ _ _ Hall Hi) as (f & -> & Hf);
        by injection Hf as <-.
    + intros trainer load_dataset GRPOTrainer train save_model model dataset_name
             output_dir training_args w.
      rewrite main_unfold, Hrf.
      destruct (load_dataset dataset_name) as [ds|e0] eqn:Hload.
      2:{ eexists. split; [reflexivity|]. split; [done|].
          split; [stages|]. intros ???? H. elem_cases H. }
      destruct (DatasetDict_map make_conversation ds) as [ds'|e0] eqn:Hmap.
      2:{ eexists. split; [reflexivity|]. split; [done|].
          split; [stages|]. intros ???? H. elem_cases H. }
      destruct (DatasetDict_getitem ds' "train") as [td|e0] eqn:Htd.
      2:{ eexists. split; [reflexivity|]. split; [done|].
          split; [stages|]. intros ???? H. elem_cases H. }
      destruct (DatasetDict_getitem ds' "test") as [ed|e0] eqn:Hed.
      2:{ eexists. split; [reflexivity|]. split; [done|].
          split; [stages|]. intros ???? H. elem_cases H. }
      destruct (GRPOTrainer model reward_funcs td ed) as [t|e0].
      2:{ eexists. split; [reflexivity|]. split; [done|].
          split; [stages|]. intros ???? H. elem_cases H. congruence. }
      destruct (train t) as [t'|e0].
      2:{ eexists. split; [reflexivity|]. split; [done|].
          split; [stages|]. intros ???? H. elem_cases H. congruence. }
      eexists. split; [reflexivity|]. split; [done|].
      split; [stages|]. intros ???? H. elem_cases H. congruence.
Qed.

Lemma reward_funcs_selection_witness :
  exists reward_funcs,
    length reward_funcs = 3%nat /\
    reward_funcs !! 0%nat = Some format_reward_func /\
    reward_funcs !! 1%nat = Some accuracy_reward_func /\
    reward_funcs !! 2%nat = Some format_reward_func /\
    calls (main (trainer := nat)
             (fun _ => Ok [("train", [ {[ "problem" := VStr "What is 2+2?" ]} ]);
                           ("test", [])])
             (fun _ _ _ _ => Ok 0%nat) (fun t => Ok (S t)) (fun _ _ => Ok tt)
             (VStr "model") (VStr "data") (VStr "out") ["format"; "accuracy"; "format"]
             VNone empty_world).2 !! 2%nat
    = Some (GRPOTrainer_call (VStr "model") reward_funcs
              [ <["prompt" := conversation (VStr "What is 2+2?")]>
                  {[ "problem" := VStr "What is 2+2?" ]} ] []).
Proof.
  destruct (proj2 (proj2 reward_funcs_selection) ["format"; "accuracy"; "format"])
    as (reward_funcs & Hlen & Hfuncs & Hmain).
  - repeat (apply List.Forall_cons; [by (left + right)|]). apply List.Forall_nil.
  - exists reward_funcs. split; [exact Hlen|].
    split; [apply (Hfuncs 0%nat); reflexivity|].
    split; [apply (Hfuncs 1%nat); reflexivity|].
    split; [apply (Hfuncs 2%nat); reflexivity|].
    destruct (Hmain nat
             (fun _ => Ok [("train", [ {[ "problem" := VStr "What is 2+2?" ]} ]);
                           ("test", [])])
             (fun _ _ _ _ => Ok 0%nat) (fun t => Ok (S t)) (fun _ _ => Ok tt)
             (VStr "model") (VStr "data") (VStr "out") VNone empty_world)
      as (trace & Hrun & _ & Hinit & _).
    rewrite Hrun. simpl. eapply Hinit; reflexivity.
Defined.

Lemma registry_getitem_Ok type f :
  registry_getitem type = Ok f -> type = "accuracy" \/ type = "format".
Proof.
  unfold registry_getitem, reward_funcs_registry.
  rewrite lookup_insert, lookup_singleton. repeat case_decide; simplify_eq; auto.
  done.
Qed.

Lemma registry_getitem_unknown type :
  type <> "accuracy" -> type <> "format" ->
  registry_getitem type = Raise (KeyError type).
Proof.
  intros Ha Hf. destruct (registry_getitem type) as [f|e] eqn:Hget.
  - apply registry_getitem_Ok in Hget as [-> | ->]; done.
  - unfold registry_getitem in Hget.
    destruct (reward_funcs_registry !! type); congruence.
Qed.

(** X15: a reward type that is not in the registry makes [main] raise
    [KeyError] for the first such type before anything else is done: the
    dataset is not loaded and no library is called. *)
Theorem main_unknown_reward_type {trainer : Type}
    (load_dataset : value -> result DatasetDict)
    (GRPOTrainer : value -> list reward_func -> list row -> list row -> result trainer)
    (train : trainer -> result trainer)
    (save_model : trainer -> value -> result unit)
    model dataset_name output_dir training_args w before type after :
  Forall (fun t => t = "accuracy" \/ t = "format") before ->
  type <> "accuracy" -> type <> "format" ->
  main load_dataset GRPOTrainer train save_model model dataset_name output_dir
       (before ++ type :: after) training_args w
  = (Raise (KeyError type), w).
Proof.
  intros Hbefore Ha Hf. rewrite main_unfold.
  rewrite (traverse_first_Raise registry_getitem before type after (KeyError type));
    [done| |by apply registry_getitem_unknown].
  eapply Forall_impl; [exact Hbefore|]. intros t [-> | ->]; eexists; reflexivity.
Qed.

Lemma main_unknown_reward_type_witness :
  main (trainer := unit) (fun _ => Ok []) (fun _ _ _ _ => Ok tt) (fun t => Ok t)
       (fun _ _ => Ok tt) (VStr "model") (VStr "data") (VStr "out")
       (["accuracy"] ++ "length" :: ["format"]) VNone empty_world
  = (Raise (KeyError "length"), empty_world).
Proof.
  apply (main_unknown_reward_type (trainer := unit)).
  - repeat constructor.
  - discriminate.
  - discriminate.
Defined.

(** X16: when the reward types are known and the dataset is loaded, with
    problems that are texts, a row without a problem in any split makes
    [main] raise [KeyError] for "problem" after the load and the
    reformatting call: the trainer is not built, nothing is trained,
    nothing is saved. *)
Theorem main_row_without_problem {trainer : Type}
    (load_dataset : value -> result DatasetDict)
    (GRPOTrainer : value -> list reward_func -> list row -> list row -> result trainer)
    (train : trainer -> result trainer)
    (save_model : trainer -> value -> result unit)
    model dataset_name output_dir reward_types training_args w
    (dataset : DatasetDict) name rows (example : row) :
  Forall (fun t => t = "accuracy" \/ t = "format") reward_types ->
  load_dataset dataset_name = Ok dataset ->
  text_problems dataset ->
  (name, rows) ∈ dataset -> example ∈ rows -> example !! "problem" = None ->
  main load_dataset GRPOTrainer train save_model model dataset_name output_dir
       reward_types training_args w
  = (Raise (KeyError "problem"),
     mkWorld (stdout w)
             (calls w ++ [load_dataset_call dataset_name; dataset_map_call dataset])).
Proof.
  intros Htypes Hload Htext Hsplit Hrow Hnone. rewrite main_unfold.
  destruct (traverse_total registry_getitem reward_types) as [reward_funcs ->].
  { eapply Forall_impl; [exact Htypes|]. intros t [-> | ->]; eexists; reflexivity. }
  rewrite Hload.
  by rewrite (DatasetDict_map_row_without_problem dataset name rows example).
Qed.

Lemma main_row_without_problem_witness :
  main (trainer := unit)
       (fun _ => Ok [("train", [ {[ "question" := VStr "What is 2+2?" ]} ])])
       (fun _ _ _ _ => Ok tt) (fun t => Ok t) (fun _ _ => Ok tt)
       (VStr "model") (VStr "data") (VStr "out") ["accuracy"; "format"] VNone empty_world
  = (Raise (KeyError "problem"),
     mkWorld []
       [load_dataset_call (VStr "data");
        dataset_map_call [("train", [ {[ "question" := VStr "What is 2+2?" ]} ])]]).
Proof.
  apply (main_row_without_problem (trainer := unit) _ _ _ _ _ _ _ _ _ empty_world
           [("train", [ {[ "question" := VStr "What is 2+2?" ]} ])]
           "train" [ {[ "question" := VStr "What is 2+2?" ]} ]
           {[ "question" := VStr "What is 2+2?" ]}).
  - repeat (apply List.Forall_cons; [by (left + right)|]). apply List.Forall_nil.
  - reflexivity.
  - apply List.Forall_cons; [|apply List.Forall_nil].
    apply List.Forall_cons; [|apply List.Forall_nil].
    intros problem Hp. vm_compute in Hp. discriminate Hp.
  - apply elem_of_cons. by left.
  - apply elem_of_cons. by left.
  - reflexivity.
Defined.

(** X17: when the reward types are known, the dataset is loaded and every
    row has a problem that is a text or [None], a dataset without a "train" split makes [main] raise
    [KeyError] for "train", and one with a "train" split and without a
    "test" split makes it raise [KeyError] for "test"; in both cases after
    the load and the reformatting call, and the trainer is not built. *)
Theorem main_missing_split {trainer : Type}
    (load_dataset : value -> result DatasetDict)
    (GRPOTrainer : value -> list reward_func -> list row -> list row -> result trainer)
    (train : trainer -> result trainer)
    (save_model : trainer -> value -> result unit)
    model dataset_name output_dir reward_types training_args w (dataset : DatasetDict) :
  Forall (fun t => t = "accuracy" \/ t = "format") reward_types ->
  load_dataset dataset_name = Ok dataset ->
  Forall (fun split : string * list row =>
            Forall (fun r : row => exists problem,
                      r !! "problem" = Some problem /\ text_or_none problem) split.2)
         dataset ->
  let stopped split :=
    main load_dataset GRPOTrainer train save_model model dataset_name output_dir
         reward_types training_args w
    = (Raise (KeyError split),
       mkWorld (stdout w)
               (calls w ++ [load_dataset_call dataset_name; dataset_map_call dataset])) in
  ("train" ∉ dataset.*1 -> stopped "train") /\
  ("train" ∈ dataset.*1 -> "test" ∉ dataset.*1 -> stopped "test").
Proof.
  intros Htypes Hload Hrows stopped. unfold stopped. rewrite main_unfold.
  destruct (traverse_total registry_getitem reward_types) as [reward_funcs ->].
  { eapply Forall_impl; [exact Htypes|]. intros t [-> | ->]; eexists; reflexivity. }
  rewrite Hload.
  destruct (DatasetDict_map_total dataset Hrows) as [dataset' Hmap]. rewrite Hmap.
  pose proof (DatasetDict_map_names dataset dataset' Hmap) as Hnames.
  split.
  - intros Htrain.
    rewrite (DatasetDict_getitem_missing dataset' "train"); [done|by rewrite Hnames].
  - intros Htrain Htest.
    destruct (DatasetDict_getitem_present dataset' "train") as [rows ->];
      [by rewrite Hnames|].
    rewrite (DatasetDict_getitem_missing dataset' "test"); [done|by rewrite Hnames].
Qed.

Lemma main_missing_split_witness :
  main (trainer := unit)
       (fun _ => Ok [("train", [ {[ "problem" := VStr "What is 2+2?" ]} ])])
       (fun _ _ _ _ => Ok tt) (fun t => Ok t) (fun _ _ => Ok tt)
       (VStr "model") (VStr "data") (VStr "out") ["accuracy"; "format"] VNone empty_world
  = (Raise (KeyError "test"),
     mkWorld []
       [load_dataset_call (VStr "data");
        dataset_map_call [("train", [ {[ "problem" := VStr "What is 2+2?" ]} ])]]).
Proof.
  apply (main_missing_split (trainer := unit) _ _ _ _ _ _ _ _ _ empty_world
           [("train", [ {[ "problem" := VStr "What is 2+2?" ]} ])]).
  - repeat (apply List.Forall_cons; [by (left + right)|]). apply List.Forall_nil.
  - reflexivity.
  - repeat constructor. eexists. split; [reflexivity|]. right. eauto.
  - apply elem_of_cons. by left.
  - intros Hin. apply elem_of_cons in Hin as [Hin|Hin]; [discriminate|].
    by apply elem_of_nil in Hin.
Defined.

(** X18: whenever [main] builds the trainer, the training and evaluation
    sets it hands over are the "train" and "test" splits of the dataset that
    was loaded, row by row and in order, each row with its prompt set to
    the conversation made from its problem. *)
Theorem main_trainer_datasets {trainer : Type}
    (load_dataset : value -> result DatasetDict)
    (GRPOTrainer : value -> list reward_func -> list row -> list row -> result trainer)
    (train : trainer -> result trainer)
    (save_model : trainer -> value -> result unit)
    model dataset_name output_dir reward_types training_args w :
  exists trace,
    calls (main load_dataset GRPOTrainer train save_model model dataset_name output_dir
                reward_types training_args w).2 = calls w ++ trace /\
    forall model' reward_funcs train_dataset eval_dataset,
      GRPOTrainer_call model' reward_funcs train_dataset eval_dataset ∈ trace ->
      exists dataset train_rows test_rows,
        load_dataset dataset_name = Ok dataset /\
        DatasetDict_getitem dataset "train" = Ok train_rows /\
        DatasetDict_getitem dataset "test" = Ok test_rows /\
        let reformatted (r r' : row) :=
          exists problem, r !! "problem" = Some problem /\
                          r' = <["prompt" := conversation problem]> r in
        Forall2 reformatted train_rows train_dataset /\
        Forall2 reformatted test_rows eval_dataset.
Proof.
  destruct (main_run load_dataset GRPOTrainer train save_model model dataset_name
              output_dir reward_types training_args w)
    as (n & rf & ds & ds' & td & ed & Hrun & Hn & H1 & H2 & H3 & H4).
  eexists. rewrite Hrun. split; [reflexivity|].
  intros model' reward_funcs train_dataset eval_dataset Hin.
  apply pipeline_trainer_call in Hin as (Hn3 & -> & -> & -> & ->).
  destruct (H3 Hn3) as (Hmap & Htrain & Htest).
  rewrite (DatasetDict_getitem_map _ ds "train" ds' Hmap) in Htrain.
  rewrite (DatasetDict_getitem_map _ ds "test" ds' Hmap) in Htest.
  destruct (DatasetDict_getitem ds "train") as [train_rows|] eqn:Htr; [|done].
  destruct (DatasetDict_getitem ds "test") as [test_rows|] eqn:Hte; [|done].
  exists ds, train_rows, test_rows. split; [apply H2; lia|]. split; [done|].
  split; [done|]. cbv zeta.
  split; by apply Dataset_map_Ok.
Qed.

(** X19: [main] returns only at the end of the pipeline: when it returns,
    it has made the six calls, in order, the trainer was built, [train]
    returned, and [save_model] returned on the trained trainer with the
    output directory it was given. *)
Theorem main_returns {trainer : Type}
    (load_dataset : value -> result DatasetDict)
    (GRPOTrainer : value -> list reward_func -> list row -> list row -> result trainer)
    (train : trainer -> result trainer)
    (save_model : trainer -> value -> result unit)
    model dataset_name output_dir reward_types training_args w :
  (main load_dataset GRPOTrainer train save_model model dataset_name output_dir
        reward_types training_args w).1 = Ok tt ->
  exists reward_funcs dataset train_dataset eval_dataset t t',
    (main load_dataset GRPOTrainer train save_model model dataset_name output_dir
          reward_types training_args w).2
    = mkWorld (stdout w)
              (calls w ++ pipeline model dataset_name output_dir reward_funcs dataset
                                   train_dataset eval_dataset) /\
    GRPOTrainer model reward_funcs train_dataset eval_dataset = Ok t /\
    train t = Ok t' /\
    save_model t' output_dir = Ok tt.
Proof.
  rewrite main_unfold.
  destruct (traverse registry_getitem reward_types) as [rf|]; [|done].
  destruct (load_dataset dataset_name) as [ds|]; [|done].
  destruct (DatasetDict_map make_conversation ds) as [ds'|]; [|done].
  destruct (DatasetDict_getitem ds' "train") as [td|]; [|done].
  destruct (DatasetDict_getitem ds' "test") as [ed|]; [|done].
  destruct (GRPOTrainer model rf td ed) as [t|] eqn:Ht; [|done].
  destruct (train t) as [t'|] eqn:Ht'; [|done].
  simpl. intros Hsave. by exists rf, ds, td, ed, t, t'.
Qed.

Lemma main_returns_witness :
  exists reward_funcs dataset train_dataset eval_dataset,
    calls (main (trainer := nat)
             (fun _ => Ok [("train", [ {[ "problem" := VStr "What is 2+2?" ]} ]);
                           ("test", [])])
             (fun _ _ _ _ => Ok 0%nat) (fun t => Ok (S t)) (fun _ _ => Ok tt)
             (VStr "model") (VStr "data") (VStr "out") ["accuracy"; "format"] VNone
             empty_world).2
    = pipeline (VStr "model") (VStr "data") (VStr "out") reward_funcs dataset
               train_dataset eval_dataset.
Proof.
  destruct (main_returns (trainer := nat)
             (fun _ => Ok [("train", [ {[ "problem" := VStr "What is 2+2?" ]} ]);
                           ("test", [])])
             (fun _ _ _ _ => Ok 0%nat) (fun t => Ok (S t)) (fun _ _ => Ok tt)
             (VStr "model") (VStr "data") (VStr "out") ["accuracy"; "format"] VNone
             empty_world)
    as (rf & ds & td & ed & t & t' & Hrun & _).
  - reflexivity.
  - exists rf, ds, td, ed. by rewrite Hrun.
Defined.

(** X20: [main] catches nothing: when [train] raises, [main] raises too;
    if the training was started, the exception of [main] is that of
    [train] and the call of [train] is the last call made; in no case is
    the model saved. *)
Theorem main_train_raises {trainer : Type}
    (load_dataset : value -> result DatasetDict)
    (GRPOTrainer : value -> list reward_func -> list row -> list row -> result trainer)
    (train : trainer -> result trainer)
    (save_model : trainer -> value -> result unit)
    model dataset_name output_dir reward_types training_args w e :
  (forall t, train t = Raise e) ->
  exists e' trace,
    main load_dataset GRPOTrainer train save_model model dataset_name output_dir
         reward_types training_args w
    = (Raise e', mkWorld (stdout w) (calls w ++ trace)) /\
    (train_call ∈ trace -> e' = e /\ last trace = Some train_call) /\
    (forall d, save_model_call d ∉ trace).
Proof.
  intros Htrain. rewrite main_unfold.
  destruct (traverse registry_getitem reward_types) as [rf|e1].
  2:{ exists e1, []. rewrite app_nil_r, world_eta. split; [done|].
      split; [intros H|intros d H]; elem_cases H. }
  destruct (load_dataset dataset_name) as [ds|e1].
  2:{ eexists e1, _. split; [done|]. split; [intros H|intros d H]; elem_cases H. }
  destruct (DatasetDict_map make_conversation ds) as [ds'|e1].
  2:{ eexists e1, _. split; [done|]. split; [intros H|intros d H]; elem_cases H. }
  destruct (DatasetDict_getitem ds' "train") as [td|e1].
  2:{ eexists e1, _. split; [done|]. split; [intros H|intros d H]; elem_cases H. }
  destruct (DatasetDict_getitem ds' "test") as [ed|e1].
  2:{ eexists e1, _. split; [done|]. split; [intros H|intros d H]; elem_cases H. }
  destruct (GRPOTrainer model rf td ed) as [t|e1].
  2:{ eexists e1, _. split; [done|]. split; [intros H|intros d H]; elem_cases H. }
  rewrite Htrain. eexists e, _. split; [done|].
  split; [done|]. intros d H. elem_cases H.
Qed.

Lemma main_train_raises_witness :
  exists e' trace,
    main (trainer := unit)
         (fun _ => Ok [("train", [ {[ "problem" := VStr "What is 2+2?" ]} ]); ("test", [])])
         (fun _ _ _ _ => Ok tt) (fun _ => Raise LibraryError) (fun _ _ => Ok tt)
         (VStr "model") (VStr "data") (VStr "out") ["accuracy"; "format"] VNone empty_world
    = (Raise e', mkWorld [] trace) /\
    (forall d, save_model_call d ∉ trace).
Proof.
  destruct (main_train_raises (trainer := unit)
         (fun _ => Ok [("train", [ {[ "problem" := VStr "What is 2+2?" ]} ]); ("test", [])])
         (fun _ _ _ _ => Ok tt) (fun _ => Raise LibraryError) (fun _ _ => Ok tt)
         (VStr "model") (VStr "data") (VStr "out") ["accuracy"; "format"] VNone empty_world
         LibraryError) as (e' & trace & Hrun & _ & Hsave).
  - reflexivity.
  - exists e', trace. split; [exact Hrun|exact Hsave].
Defined.

(** X21: the script cannot fail on its reward types: whatever the
    libraries do, its first call loads "AI-MO/NuminaMath-TIR"; a trainer it
    builds gets the model path "/home/ubuntu/models/traced_qwen" and the
    two reward functions, accuracy first; a model it saves goes to
    "/home/ubuntu/models/grpo_qwen". *)
Theorem script_run {trainer : Type}
    (load_dataset : value -> result DatasetDict)
    (GRPOTrainer : value -> list reward_func -> list row -> list row -> result trainer)
    (train : trainer -> result trainer)
    (save_model : trainer -> value -> result unit) w :
  exists trace,
    calls (script.run load_dataset GRPOTrainer train save_model w).2
    = calls w ++ load_dataset_call (VStr "AI-MO/NuminaMath-TIR") :: trace /\
    (forall model reward_funcs train_dataset eval_dataset,
       GRPOTrainer_call model reward_funcs train_dataset eval_dataset ∈ trace ->
       model = VStr "/home/ubuntu/models/traced_qwen" /\
       reward_funcs = [accuracy_reward_func; format_reward_func]) /\
    (forall output_dir,
       save_model_call output_dir ∈ trace ->
       output_dir = VStr "/home/ubuntu/models/grpo_qwen").
Proof.
  unfold script.run. rewrite main_unfold.
  change (traverse registry_getitem script.reward_types)
    with (Ok [accuracy_reward_func; format_reward_func]).
  destruct (load_dataset script.dataset_name) as [ds|e1].
  2:{ exists []. split; [done|]. split; [intros ???? H|intros ? H]; elem_cases H. }
  destruct (DatasetDict_map make_conversation ds) as [ds'|e1].
  2:{ eexists. split; [reflexivity|].
      split; [intros ???? H|intros ? H]; elem_cases H. }
  destruct (DatasetDict_getitem ds' "train") as [td|e1].
  2:{ eexists. split; [reflexivity|].
      split; [intros ???? H|intros ? H]; elem_cases H. }
  destruct (DatasetDict_getitem ds' "test") as [ed|e1].
  2:{ eexists. split; [reflexivity|].
      split; [intros ???? H|intros ? H]; elem_cases H. }
  destruct (GRPOTrainer _ _ td ed) as [t|e1].
  2:{ eexists. split; [reflexivity|].
      split; [intros ???? H|intros ? H]; elem_cases H. by simplify_eq. }
  destruct (train t) as [t'|e1].
  2:{ eexists. split; [reflexivity|].
      split; [intros ???? H|intros ? H]; elem_cases H. by simplify_eq. }
  eexists. split; [reflexivity|].
  split; [intros ???? H|intros ? H]; elem_cases H; by simplify_eq.
Qed.
